(** * Bendulum: the beat timing engine of the Arduino "Bendulum" library

    A shallow embedding of [Bendulum.cpp] (version 1.22) and the properties
    of its timing / calibration state machine.

    Integer types follow the AVR ABI the library is written for
    (Arduino Uno and kin): [int] is 16 bit, [long] and [unsigned long] are
    32 bit, [byte] is 8 bit.  Signed arithmetic wraps around, as the code
    avr-gcc emits for it does; division is C division (it truncates toward
    zero, [Z.quot]); division by zero is an error of its own. *)

From Stdlib Require Import ZArith List Bool Lia.
Import ListNotations.
Local Open Scope Z_scope.

(** ** Machine integers *)

Module Machine.

Definition wrap_signed (bits x : Z) : Z :=
  (x + 2 ^ (bits - 1)) mod 2 ^ bits - 2 ^ (bits - 1).

Definition to_int (x : Z) : Z := wrap_signed 16 x.
Definition to_long (x : Z) : Z := wrap_signed 32 x.
Definition to_ulong (x : Z) : Z := x mod 2 ^ 32.

Definition in_int (x : Z) : Prop := -32768 <= x <= 32767.
Definition in_long (x : Z) : Prop := -2147483648 <= x <= 2147483647.
Definition in_ulong (x : Z) : Prop := 0 <= x <= 4294967295.

End Machine.
Export Machine.

(** ** Results of a call

    A call either returns, or has not returned yet (the polling loop of
    [beat] is still waiting for the sensor, or a [while] loop has used up
    the iterations it was given), or divides by zero. *)

Inductive outcome (A : Type) : Type :=
| Done (a : A)
| Pending
| DivByZero.

Arguments Done {A} a.
Arguments Pending {A}.
Arguments DivByZero {A}.

Definition bind {A B : Type} (c : outcome A) (k : A -> outcome B) : outcome B :=
  match c with
  | Done a => k a
  | Pending => Pending
  | DivByZero => DivByZero
  end.

Notation "x <- c ;; k" := (bind c (fun x => k))
  (at level 61, c at next level, right associativity).

(** [a / b] on [int] and on [long]. *)
Definition div_int (a b : Z) : outcome Z :=
  if b =? 0 then DivByZero else Done (to_int (Z.quot a b)).

Definition div_long (a b : Z) : outcome Z :=
  if b =? 0 then DivByZero else Done (to_long (Z.quot a b)).

(** ** The object *)

(** Run mode constants of [Bendulum.h]. *)
Inductive RunMode : Type :=
| SETTLING | SCALING | CALIBRATING | CALFINISH | RUNNING.

Definition mode_code (m : RunMode) : Z :=
  match m with
  | SETTLING => 0
  | SCALING => 1
  | CALIBRATING => 2
  | CALFINISH => 3
  | RUNNING => 4
  end.

Definition mode_of_byte (c : Z) : option RunMode :=
  match c with
  | 0 => Some SETTLING
  | 1 => Some SCALING
  | 2 => Some CALIBRATING
  | 3 => Some CALFINISH
  | 4 => Some RUNNING
  | _ => None
  end.

(** The instance variables of [class Bendulum]. *)
Record Bendulum : Type := mkBendulum {
  sensePin : Z;
  kickPin : Z;
  cycleCounter : Z;     (* int *)
  tgtSettle : Z;        (* int *)
  tgtScale : Z;         (* int *)
  tgtSmoothing : Z;     (* int *)
  curSmoothing : Z;     (* int *)
  uspb : Z;             (* long *)
  bias : Z;             (* int *)
  peakScale : Z;        (* int *)
  tick : bool;
  tickAvg : Z;          (* long *)
  tockAvg : Z;          (* long *)
  tickPeriod : Z;       (* long *)
  tockPeriod : Z;       (* long *)
  lastTime : Z;         (* unsigned long *)
  timeBeforeLast : Z;   (* unsigned long *)
  runMode : RunMode     (* byte, only ever one of the five constants *)
}.

Definition set_cycleCounter (v : Z) (b : Bendulum) : Bendulum :=
  mkBendulum (sensePin b) (kickPin b) v (tgtSettle b) (tgtScale b)
    (tgtSmoothing b) (curSmoothing b) (uspb b) (bias b) (peakScale b) (tick b)
    (tickAvg b) (tockAvg b) (tickPeriod b) (tockPeriod b) (lastTime b)
    (timeBeforeLast b) (runMode b).

Definition set_tgtSettle (v : Z) (b : Bendulum) : Bendulum :=
  mkBendulum (sensePin b) (kickPin b) (cycleCounter b) v (tgtScale b)
    (tgtSmoothing b) (curSmoothing b) (uspb b) (bias b) (peakScale b) (tick b)
    (tickAvg b) (tockAvg b) (tickPeriod b) (tockPeriod b) (lastTime b)
    (timeBeforeLast b) (runMode b).

Definition set_tgtSmoothing (v : Z) (b : Bendulum) : Bendulum :=
  mkBendulum (sensePin b) (kickPin b) (cycleCounter b) (tgtSettle b) (tgtScale b)
    v (curSmoothing b) (uspb b) (bias b) (peakScale b) (tick b)
    (tickAvg b) (tockAvg b) (tickPeriod b) (tockPeriod b) (lastTime b)
    (timeBeforeLast b) (runMode b).

Definition set_curSmoothing (v : Z) (b : Bendulum) : Bendulum :=
  mkBendulum (sensePin b) (kickPin b) (cycleCounter b) (tgtSettle b) (tgtScale b)
    (tgtSmoothing b) v (uspb b) (bias b) (peakScale b) (tick b)
    (tickAvg b) (tockAvg b) (tickPeriod b) (tockPeriod b) (lastTime b)
    (timeBeforeLast b) (runMode b).

Definition set_uspb (v : Z) (b : Bendulum) : Bendulum :=
  mkBendulum (sensePin b) (kickPin b) (cycleCounter b) (tgtSettle b) (tgtScale b)
    (tgtSmoothing b) (curSmoothing b) v (bias b) (peakScale b) (tick b)
    (tickAvg b) (tockAvg b) (tickPeriod b) (tockPeriod b) (lastTime b)
    (timeBeforeLast b) (runMode b).

Definition set_bias (v : Z) (b : Bendulum) : Bendulum :=
  mkBendulum (sensePin b) (kickPin b) (cycleCounter b) (tgtSettle b) (tgtScale b)
    (tgtSmoothing b) (curSmoothing b) (uspb b) v (peakScale b) (tick b)
    (tickAvg b) (tockAvg b) (tickPeriod b) (tockPeriod b) (lastTime b)
    (timeBeforeLast b) (runMode b).

Definition set_peakScale (v : Z) (b : Bendulum) : Bendulum :=
  mkBendulum (sensePin b) (kickPin b) (cycleCounter b) (tgtSettle b) (tgtScale b)
    (tgtSmoothing b) (curSmoothing b) (uspb b) (bias b) v (tick b)
    (tickAvg b) (tockAvg b) (tickPeriod b) (tockPeriod b) (lastTime b)
    (timeBeforeLast b) (runMode b).

Definition set_tick (v : bool) (b : Bendulum) : Bendulum :=
  mkBendulum (sensePin b) (kickPin b) (cycleCounter b) (tgtSettle b) (tgtScale b)
    (tgtSmoothing b) (curSmoothing b) (uspb b) (bias b) (peakScale b) v
    (tickAvg b) (tockAvg b) (tickPeriod b) (tockPeriod b) (lastTime b)
    (timeBeforeLast b) (runMode b).

Definition set_tickAvg (v : Z) (b : Bendulum) : Bendulum :=
  mkBendulum (sensePin b) (kickPin b) (cycleCounter b) (tgtSettle b) (tgtScale b)
    (tgtSmoothing b) (curSmoothing b) (uspb b) (bias b) (peakScale b) (tick b)
    v (tockAvg b) (tickPeriod b) (tockPeriod b) (lastTime b)
    (timeBeforeLast b) (runMode b).

Definition set_tockAvg (v : Z) (b : Bendulum) : Bendulum :=
  mkBendulum (sensePin b) (kickPin b) (cycleCounter b) (tgtSettle b) (tgtScale b)
    (tgtSmoothing b) (curSmoothing b) (uspb b) (bias b) (peakScale b) (tick b)
    (tickAvg b) v (tickPeriod b) (tockPeriod b) (lastTime b)
    (timeBeforeLast b) (runMode b).

Definition set_tickPeriod (v : Z) (b : Bendulum) : Bendulum :=
  mkBendulum (sensePin b) (kickPin b) (cycleCounter b) (tgtSettle b) (tgtScale b)
    (tgtSmoothing b) (curSmoothing b) (uspb b) (bias b) (peakScale b) (tick b)
    (tickAvg b) (tockAvg b) v (tockPeriod b) (lastTime b)
    (timeBeforeLast b) (runMode b).

Definition set_tockPeriod (v : Z) (b : Bendulum) : Bendulum :=
  mkBendulum (sensePin b) (kickPin b) (cycleCounter b) (tgtSettle b) (tgtScale b)
    (tgtSmoothing b) (curSmoothing b) (uspb b) (bias b) (peakScale b) (tick b)
    (tickAvg b) (tockAvg b) (tickPeriod b) v (lastTime b)
    (timeBeforeLast b) (runMode b).

Definition set_lastTime (v : Z) (b : Bendulum) : Bendulum :=
  mkBendulum (sensePin b) (kickPin b) (cycleCounter b) (tgtSettle b) (tgtScale b)
    (tgtSmoothing b) (curSmoothing b) (uspb b) (bias b) (peakScale b) (tick b)
    (tickAvg b) (tockAvg b) (tickPeriod b) (tockPeriod b) v
    (timeBeforeLast b) (runMode b).

Definition set_timeBeforeLast (v : Z) (b : Bendulum) : Bendulum :=
  mkBendulum (sensePin b) (kickPin b) (cycleCounter b) (tgtSettle b) (tgtScale b)
    (tgtSmoothing b) (curSmoothing b) (uspb b) (bias b) (peakScale b) (tick b)
    (tickAvg b) (tockAvg b) (tickPeriod b) (tockPeriod b) (lastTime b)
    v (runMode b).

Definition set_runMode (v : RunMode) (b : Bendulum) : Bendulum :=
  mkBendulum (sensePin b) (kickPin b) (cycleCounter b) (tgtSettle b) (tgtScale b)
    (tgtSmoothing b) (curSmoothing b) (uspb b) (bias b) (peakScale b) (tick b)
    (tickAvg b) (tockAvg b) (tickPeriod b) (tockPeriod b) (lastTime b)
    (timeBeforeLast b) v.

(** ** Constructor

    [Bendulum::Bendulum(sPin, kPin)] assigns every member except [uspb],
    which keeps whatever the object's storage held.  [mem] is that storage;
    for an object of static storage duration (the library's idiom and what
    its demonstration sketch does: a global [Bendulum b;]) it is zeroed
    before the constructor runs. *)

Definition Bendulum_init (mem : Bendulum) (sPin kPin : Z) : Bendulum :=
  {| sensePin := sPin;
     kickPin := kPin;
     cycleCounter := 1;
     tgtSettle := 32;
     tgtScale := 128;
     tgtSmoothing := 2048;
     curSmoothing := 1;
     uspb := uspb mem;
     bias := 0;
     peakScale := 10;
     tick := true;
     tickAvg := 0;
     tockAvg := 0;
     tickPeriod := 0;
     tockPeriod := 0;
     lastTime := 0;
     timeBeforeLast := 0;
     runMode := SETTLING |}.

Definition static_storage : Bendulum :=
  mkBendulum 0 0 0 0 0 0 0 0 0 0 false 0 0 0 0 0 0 SETTLING.

(** A global [Bendulum b(sPin, kPin);]. *)
Definition Bendulum_static (sPin kPin : Z) : Bendulum :=
  Bendulum_init static_storage sPin kPin.

(** ** Getters and setters *)

Definition setRunMode (mode : RunMode) (b : Bendulum) : Bendulum :=
  match mode with
  | SETTLING => set_cycleCounter 1 (set_runMode SETTLING b)
  | SCALING => set_peakScale 10 (set_cycleCounter 1 (set_runMode SCALING b))
  | CALIBRATING =>
      set_curSmoothing 1 (set_tickAvg 0 (set_tockAvg 0 (set_runMode CALIBRATING b)))
  | CALFINISH => set_runMode CALFINISH b
  | RUNNING => set_runMode RUNNING b
  end.

(** The conversion of an integer argument to [byte] (8 bit, unsigned). *)
Definition to_byte (x : Z) : Z := x mod 2 ^ 8.

(** [setRunMode(byte mode)] as the sketch calls it: the argument is
    converted to [byte], and a byte that is none of the five constants falls
    through the [switch]. *)
Definition setRunMode_byte (mode : Z) (b : Bendulum) : Bendulum :=
  match mode_of_byte (to_byte mode) with
  | Some m => setRunMode m b
  | None => b
  end.

Definition getRunMode (b : Bendulum) : Z := mode_code (runMode b).

Definition getCycleCounter (b : Bendulum) : Z :=
  match runMode b with
  | RUNNING => -1
  | CALIBRATING => curSmoothing b
  | _ => cycleCounter b
  end.

Definition getTgtSmoothing (b : Bendulum) : Z := tgtSmoothing b.
Definition setTgtSmoothing (interval : Z) (b : Bendulum) : Bendulum :=
  set_tgtSmoothing interval b.

Definition getTgtSettle (b : Bendulum) : Z := tgtSettle b.
Definition setTgtSettle (interval : Z) (b : Bendulum) : Bendulum :=
  set_tgtSettle interval b.

Definition getBias (b : Bendulum) : Z := bias b.
Definition setBias (factor : Z) (b : Bendulum) : Bendulum := set_bias factor b.
Definition incrBias (factor : Z) (b : Bendulum) : Z * Bendulum :=
  let b := set_bias (to_int (bias b + factor)) b in (bias b, b).

Definition getPeakScale (b : Bendulum) : Z := peakScale b.
Definition setPeakScale (scaleFactor : Z) (b : Bendulum) : Bendulum :=
  set_peakScale scaleFactor b.

Definition isTick (b : Bendulum) : bool := tick b.

Definition getBeatDuration (b : Bendulum) : Z := uspb b.
Definition setBeatDuration (beatDur : Z) (b : Bendulum) : Bendulum :=
  set_uspb beatDur (set_tickAvg beatDur (set_tockAvg beatDur b)).

(** ** Measuring an interval *)

(** [topTime - lastTime] on [unsigned long], stored into a [long]. *)
Definition elapsed (topTime lastTime : Z) : Z :=
  to_long (to_ulong (topTime - lastTime)).

(** [x += ((k * x) + 432000) / 864000;] on [long]: the (rounded) Arduino
    clock correction of [beat], [k] being [bias], and the adjustment step of
    [incrBeatDuration]. *)
Definition clock_corr (k x : Z) : Z :=
  to_long (x + Z.quot (to_long (to_long (k * x) + 432000)) 864000).

(** ** Watching for the passing bendulum

    What one call of [beat] receives from the outside: the values
    [analogRead(sensePin)] returns, in order, and the value of [micros()]
    when the passage is seen.  [delay], [pinMode] and [digitalWrite] (the
    kick) touch no instance variable. *)
Record Passage : Type := mkPassage {
  coil : list Z;
  micros : Z
}.

(** [do { currCoil = analogRead(sensePin); } while (currCoil > 0);] *)
Fixpoint wait_zero (rs : list Z) : outcome (Z * list Z) :=
  match rs with
  | [] => Pending
  | r :: rs' => if r >? 0 then wait_zero rs' else Done (r, rs')
  end.

(** [while (currCoil >= pastCoil) { pastCoil = currCoil;
      currCoil = analogRead(sensePin) / peakScale; }]; the value of
    [pastCoil] at the exit is the result. *)
Fixpoint wait_peak (scale : Z) (rs : list Z) (currCoil pastCoil : Z) : outcome Z :=
  match rs with
  | [] => if currCoil >=? pastCoil then Pending else Done pastCoil
  | r :: rs' =>
      if currCoil >=? pastCoil
      then c <- div_int r scale ;; wait_peak scale rs' c currCoil
      else Done pastCoil
  end.

Definition watch (scale : Z) (rs : list Z) : outcome Z :=
  z <- wait_zero rs ;;
  wait_peak scale (snd z) (fst z) 0.

(** ** [Bendulum::beat] *)

Definition maxPeak : Z := 1.

Definition beat (p : Passage) (b : Bendulum) : outcome (Z * Bendulum) :=
  pastCoil <- watch (peakScale b) (coil p) ;;
  let topTime := to_ulong (micros p) in
  if lastTime b =? 0 then
    Done (0, set_lastTime topTime b)
  else
    b <- match runMode b with
         | SETTLING =>
             let u := clock_corr (bias b) (elapsed topTime (lastTime b)) in
             let b := set_uspb (if u >? 5000000 then 0 else u) b in
             if tick b then
               Done (set_tickPeriod (uspb b) b)
             else
               let b := set_tockPeriod (uspb b) b in
               let b := set_cycleCounter (to_int (cycleCounter b + 1)) b in
               Done (if cycleCounter b >? tgtSettle b
                     then setRunMode SCALING b else b)
         | SCALING =>
             let b := if pastCoil >? maxPeak
                      then set_peakScale (to_int (peakScale b + 1)) b else b in
             let u := clock_corr (bias b) (elapsed topTime (lastTime b)) in
             let b := set_uspb (if u >? 5000000 then 0 else u) b in
             if tick b then
               Done (set_tickPeriod (uspb b) b)
             else
               let b := set_tockPeriod (uspb b) b in
               let b := set_cycleCounter (to_int (cycleCounter b + 1)) b in
               Done (if cycleCounter b >? tgtScale b
                     then setRunMode CALIBRATING b else b)
         | CALIBRATING =>
             let b := if (tickAvg b =? 0) && negb (tick b)
                      then set_tick true b else b in
             b <- (if tick b then
                     let b := set_tickPeriod
                                (clock_corr (bias b) (elapsed topTime (lastTime b))) b in
                     q <- div_long (to_long (tickPeriod b - tickAvg b)) (curSmoothing b) ;;
                     Done (set_tickAvg (to_long (tickAvg b + q)) b)
                   else
                     let b := set_tockPeriod
                                (clock_corr (bias b) (elapsed topTime (lastTime b))) b in
                     q <- div_long (to_long (tockPeriod b - tockAvg b)) (curSmoothing b) ;;
                     let b := set_tockAvg (to_long (tockAvg b + q)) b in
                     let b := set_curSmoothing (to_int (curSmoothing b + 1)) b in
                     Done (if curSmoothing b >? tgtSmoothing b
                           then setRunMode CALFINISH b else b)) ;;
             Done (if tockAvg b =? 0
                   then set_uspb (tickAvg b) b
                   else set_uspb (Z.quot (to_long (tickAvg b + tockAvg b)) 2) b)
         | CALFINISH => Done (setRunMode RUNNING b)
         | RUNNING => Done b
         end ;;
    let b := set_tick (negb (tick b)) b in
    let b := set_timeBeforeLast (lastTime b) b in
    let b := set_lastTime topTime b in
    Done (uspb b, b).

(** [Bendulum::cycle]: [beat() + beat()]. *)
Definition cycle (p q : Passage) (b : Bendulum) : outcome (Z * Bendulum) :=
  r1 <- beat p b ;;
  r2 <- beat q (snd r1) ;;
  Done (to_long (fst r1 + fst r2), snd r2).

(** A run of [beat] calls, one passage each; the returned values are dropped. *)
Fixpoint beats (ps : list Passage) (b : Bendulum) : outcome Bendulum :=
  match ps with
  | [] => Done b
  | p :: ps' => r <- beat p b ;; beats ps' (snd r)
  end.

(** ** [Bendulum::incrBeatDuration]

    [while (incr > noOflow) { tickAvg = tockAvg = uspb += ...; incr -= noOflow; }]
    run for at most [fuel] iterations; the result is the pair of [incr] and
    [uspb] at the exit.  [tickAvg] and [tockAvg] follow [uspb] throughout. *)
Fixpoint incr_loop (fuel : nat) (noOflow incr u : Z) : outcome (Z * Z) :=
  if incr >? noOflow then
    match fuel with
    | O => Pending
    | S fuel' =>
        incr_loop fuel' noOflow (to_long (incr - noOflow)) (clock_corr noOflow u)
    end
  else Done (incr, u).

Definition incrBeatDuration (fuel : nat) (incr : Z) (b : Bendulum)
  : outcome (Z * Bendulum) :=
  noOflow <- div_long 2000000000 (uspb b) ;;
  r <- incr_loop fuel noOflow incr (uspb b) ;;
  let u := clock_corr (fst r) (snd r) in
  Done (u, set_tickAvg u (set_tockAvg u (set_uspb u b))).

(** The operands [(k, x)] of every product [k * x] that [incrBeatDuration]
    forms, in order: the loop's, then the final one. *)
Fixpoint incr_products (fuel : nat) (noOflow incr u : Z) : list (Z * Z) :=
  if incr >? noOflow then
    match fuel with
    | O => []
    | S fuel' =>
        (noOflow, u)
          :: incr_products fuel' noOflow (to_long (incr - noOflow)) (clock_corr noOflow u)
    end
  else [(incr, u)].

(** ** Concrete fixtures

    The global object of the demonstration sketch (sense pin A2, which is
    16 on an Uno, kick pin 12) and a passage whose coil readings rise to a
    peak of 40 and then fall, seen at clock time [t]. *)
Definition sketch : Bendulum := Bendulum_static 16 12.

Definition swing (t : Z) : Passage := mkPassage [0; 5; 20; 40; 30] t.

(** A passage with a strong peak (raw 400). *)
Definition strong_swing (t : Z) : Passage := mkPassage [0; 50; 200; 400; 300] t.

(** The sketch's object sent into calibration after its first call. *)
Definition calib_start : Bendulum :=
  setRunMode CALIBRATING (set_lastTime 1000 sketch).

(** The sketch's object after its first call and one measured second. *)
Definition settled_1s : Bendulum :=
  set_tick false
    (set_timeBeforeLast 1000
       (set_lastTime 1001000
          (set_tickPeriod 1000000 (set_uspb 1000000 sketch)))).

(** The sketch's object with a settling target of one cycle, after its
    first call. *)
Definition settle_1 : Bendulum := set_lastTime 1000 (setTgtSettle 1 sketch).

(** The sketch's object sent into scaling after its first call, and what two
    strong passages make of it. *)
Definition scaling_start : Bendulum :=
  setRunMode SCALING (set_lastTime 1000 sketch).

Definition scaling_after_2 : Bendulum :=
  set_peakScale 12
    (set_cycleCounter 2
       (set_tockPeriod 1000000
          (set_tickPeriod 1000000
             (set_uspb 1000000
                (set_timeBeforeLast 1001000
                   (set_lastTime 2001000 scaling_start)))))).

(** The sketch's object with a settling target of one cycle and [peakScale]
    set to 20 by hand, after its first call and one measured second. *)
Definition resettled : Bendulum :=
  set_tick false
    (set_timeBeforeLast 1000
       (set_lastTime 1001000
          (set_tickPeriod 1000000
             (set_uspb 1000000 (setPeakScale 20 (setTgtSettle 1 sketch)))))).

(** The sketch's object with a beat duration of one second set by hand. *)
Definition one_second : Bendulum := setBeatDuration 1000000 sketch.

(** ** Notions the properties are stated with *)

(** The specification's formula for the corrected interval: the raw interval
    plus [bias * raw / 864000] rounded by adding half the divisor before the
    integer division (C's, as everywhere in the code), over the integers. *)
Definition corrected_spec (r b : Z) : Z := r + (b * r + 432000) ÷ 864000.

(** The products of the correction fit a [long]. *)
Definition corr_fits (b r : Z) : Prop :=
  in_long (b * r) /\ in_long (b * r + 432000).

(** [avg += (sample - avg) / n] on [long]. *)
Definition smooth (avg sample n : Z) : Z :=
  to_long (avg + to_long (to_long (sample - avg) ÷ n)).

(** The specification's update of a running average,
    [avg += (sample - avg) / n], over the integers, the division being C's. *)
Definition smooth_spec (avg sample n : Z) : Z := avg + (sample - avg) ÷ n.

(** A passage that [beat] gets to see with the scaling factor [scale], at a
    clock time that is not 0 (a timestamp of 0 would read as "no prior
    timestamp" at the next call). *)
Definition seen (scale : Z) (p : Passage) : Prop :=
  to_ulong (micros p) <> 0 /\ exists pastCoil, watch scale (coil p) = Done pastCoil.

(** The measured beats still to come in SETTLING mode: two for each cycle
    the counter is short of passing [tgtSettle], less the tick already seen
    of the current one. *)
Definition settle_left (b : Bendulum) : Z :=
  2 * (tgtSettle b - cycleCounter b + 1) - (if tick b then 0 else 1).

(** ** Notions for runs of beats *)

(** The measured beats still to come in SCALING mode, counted as in
    SETTLING mode. *)
Definition scale_left (b : Bendulum) : Z :=
  2 * (tgtScale b - cycleCounter b + 1) - (if tick b then 0 else 1).

(** The measured beats still to come in CALIBRATING mode: two for each cycle
    the smoothing counter is short of passing [tgtSmoothing]. *)
Definition calib_left (b : Bendulum) : Z :=
  2 * (tgtSmoothing b - curSmoothing b + 1) - (if tick b then 0 else 1).

(** A run of passages, each seen with the scaling factor [scale] at a clock
    time that is not 0, and each at a positive corrected interval from the
    one before it, [last] being the clock time before the first. *)
Fixpoint steady (scale bias last : Z) (ps : list Passage) : Prop :=
  match ps with
  | [] => True
  | p :: ps' =>
      seen scale p
      /\ 0 < clock_corr bias (elapsed (to_ulong (micros p)) last)
      /\ steady scale bias (to_ulong (micros p)) ps'
  end.

(** The scaled readings [rs], taken after the scaled value [c], never fall. *)
Fixpoint rising (scale c : Z) (rs : list Z) : Prop :=
  match rs with
  | [] => True
  | r :: rs' => c <= to_int (r ÷ scale) /\ rising scale (to_int (r ÷ scale)) rs'
  end.

(** The last of the scaled readings [rs], or [c] if there is none. *)
Fixpoint last_scaled (scale c : Z) (rs : list Z) : Z :=
  match rs with
  | [] => c
  | r :: rs' => last_scaled scale (to_int (r ÷ scale)) rs'
  end.

(** * Properties *)

(** ** Machine integers *)

Lemma to_long_id (x : Z) : in_long x -> to_long x = x.
Proof.
  unfold in_long, to_long, wrap_signed. intros H.
  change (2 ^ (32 - 1)) with 2147483648. change (2 ^ 32) with 4294967296.
  rewrite Z.mod_small; lia.
Qed.

Lemma to_int_id (x : Z) : in_int x -> to_int x = x.
Proof.
  unfold in_int, to_int, wrap_signed. intros H.
  change (2 ^ (16 - 1)) with 32768. change (2 ^ 16) with 65536.
  rewrite Z.mod_small; lia.
Qed.

Lemma to_ulong_id (x : Z) : in_ulong x -> to_ulong x = x.
Proof.
  unfold in_ulong, to_ulong. intros H.
  change (2 ^ 32) with 4294967296. rewrite Z.mod_small; lia.
Qed.

Lemma to_long_range (x : Z) : in_long (to_long x).
Proof.
  unfold in_long, to_long, wrap_signed.
  change (2 ^ (32 - 1)) with 2147483648. change (2 ^ 32) with 4294967296.
  pose proof (Z.mod_pos_bound (x + 2147483648) 4294967296 eq_refl). lia.
Qed.

Lemma to_int_range (x : Z) : in_int (to_int x).
Proof.
  unfold in_int, to_int, wrap_signed.
  change (2 ^ (16 - 1)) with 32768. change (2 ^ 16) with 65536.
  pose proof (Z.mod_pos_bound (x + 32768) 65536 eq_refl). lia.
Qed.

Lemma to_ulong_range (x : Z) : in_ulong (to_ulong x).
Proof.
  unfold in_ulong, to_ulong. change (2 ^ 32) with 4294967296.
  pose proof (Z.mod_pos_bound x 4294967296 eq_refl). lia.
Qed.

(** ** The outcome monad *)

Lemma bind_Done {A B : Type} (c : outcome A) (k : A -> outcome B) (r : B) :
  bind c k = Done r -> exists a, c = Done a /\ k a = Done r.
Proof.
  destruct c as [a| |]; cbn; intros H; try discriminate.
  exists a. split; [reflexivity | exact H].
Qed.

Lemma Done_returns_uspb (v : Z) (b : Bendulum) :
  v = uspb b -> Done (v, b) = Done (uspb b, b).
Proof. intros ->. reflexivity. Qed.

(** The wrap-arounds are computed on closed numbers only; conversion leaves
    them folded otherwise. *)
#[local] Strategy 100 [wrap_signed to_int to_long to_ulong].

(** ** Tactics *)

(** Split a hypothesis [bind c k = Done r] into its two steps. *)
Ltac bind_inv H :=
  let a := fresh "a" in
  let Ha := fresh "Ha" in
  apply bind_Done in H; destruct H as (a & Ha & H).

(** For a goal [exists b', c = Done (v, b') /\ ...] with [c] closed: run [c]
    and give the state it ends in. *)
Ltac run_exists :=
  match goal with
  | |- exists b', ?c = Done (_, b') /\ _ =>
      let r := eval vm_compute in c in
      match r with
      | Done (_, ?s) => exists s; split; [vm_compute; reflexivity |]
      end
  end.

(** ** [setRunMode] *)

(** C4.  For every target mode, [setRunMode] sets the mode and resets
    exactly what that mode owns: the cycle counter to 1 on entering
    SETTLING; the cycle counter to 1 and [peakScale] to 10 on entering
    SCALING; [tickAvg], [tockAvg] to 0 and the smoothing counter to 1 on
    entering CALIBRATING; nothing on entering CALFINISH or RUNNING.  Every
    other instance variable (bias, beat duration, tick flag, last periods,
    timestamps, targets, pins) is unchanged. *)
Theorem setRunMode_resets_owned_state (m : RunMode) (b : Bendulum) :
  runMode (setRunMode m b) = m
  /\ cycleCounter (setRunMode m b)
     = match m with SETTLING | SCALING => 1 | _ => cycleCounter b end
  /\ peakScale (setRunMode m b)
     = match m with SCALING => 10 | _ => peakScale b end
  /\ tickAvg (setRunMode m b)
     = match m with CALIBRATING => 0 | _ => tickAvg b end
  /\ tockAvg (setRunMode m b)
     = match m with CALIBRATING => 0 | _ => tockAvg b end
  /\ curSmoothing (setRunMode m b)
     = match m with CALIBRATING => 1 | _ => curSmoothing b end
  /\ bias (setRunMode m b) = bias b
  /\ uspb (setRunMode m b) = uspb b
  /\ tick (setRunMode m b) = tick b
  /\ tickPeriod (setRunMode m b) = tickPeriod b
  /\ tockPeriod (setRunMode m b) = tockPeriod b
  /\ lastTime (setRunMode m b) = lastTime b
  /\ timeBeforeLast (setRunMode m b) = timeBeforeLast b
  /\ tgtSettle (setRunMode m b) = tgtSettle b
  /\ tgtScale (setRunMode m b) = tgtScale b
  /\ tgtSmoothing (setRunMode m b) = tgtSmoothing b
  /\ sensePin (setRunMode m b) = sensePin b
  /\ kickPin (setRunMode m b) = kickPin b.
Proof.
  destruct m; cbn; repeat split; reflexivity.
Qed.

Lemma mode_of_byte_code (c : Z) (m : RunMode) :
  mode_of_byte c = Some m -> c = mode_code m.
Proof.
  unfold mode_of_byte. intros H.
  repeat match type of H with
         | context [match ?x with _ => _ end] => destruct x
         end;
    try discriminate; injection H as <-; reflexivity.
Qed.

(** X8.  [setRunMode] called with an integer [c]: the argument is taken
    as the byte [c mod 256].  When that byte is one of the five constants
    the call acts as that mode; when it is above 4 the call changes nothing,
    the mode included.  So every [c] from 5 to 255 leaves the object as it
    is, while 256 is the byte 0 and enters SETTLING. *)
Lemma setRunMode_byte_spec (c : Z) (b : Bendulum) :
  (forall m, mode_code m = c mod 256 -> setRunMode_byte c b = setRunMode m b)
  /\ (4 < c mod 256 -> setRunMode_byte c b = b)
  /\ (5 <= c <= 255 -> setRunMode_byte c b = b)
  /\ setRunMode_byte (c * 256) b = setRunMode SETTLING b.
Proof.
  assert (Hhigh : 4 < c mod 256 -> setRunMode_byte c b = b).
  { intros H. unfold setRunMode_byte, to_byte. change (2 ^ 8) with 256.
    destruct (mode_of_byte (c mod 256)) as [m|] eqn:E; [| reflexivity].
    apply mode_of_byte_code in E. destruct m; cbn in E; lia. }
  split; [| split; [exact Hhigh | split]].
  - intros m E. unfold setRunMode_byte, to_byte. change (2 ^ 8) with 256.
    rewrite <- E. destruct m; reflexivity.
  - intros H. apply Hhigh. rewrite Z.mod_small; lia.
  - unfold setRunMode_byte, to_byte. change (2 ^ 8) with 256.
    rewrite Z.mod_mul by lia. reflexivity.
Qed.

(** ** The first call of [beat] *)

(** C5.  A call of [beat] that finds no prior timestamp ([lastTime] is 0)
    returns 0, records the captured timestamp as [lastTime], and changes
    nothing else: the cycle and smoothing counters, the tick flag, the
    averages, the beat duration and the mode are as they were. *)
Theorem beat_first_call (p : Passage) (b : Bendulum) (pastCoil : Z) :
  lastTime b = 0 ->
  watch (peakScale b) (coil p) = Done pastCoil ->
  exists b',
    beat p b = Done (0, b')
    /\ b' = set_lastTime (to_ulong (micros p)) b
    /\ lastTime b' = to_ulong (micros p)
    /\ cycleCounter b' = cycleCounter b
    /\ curSmoothing b' = curSmoothing b
    /\ tick b' = tick b
    /\ tickAvg b' = tickAvg b
    /\ tockAvg b' = tockAvg b
    /\ uspb b' = uspb b
    /\ runMode b' = runMode b.
Proof.
  intros Hl Hw. eexists. split.
  - unfold beat. rewrite Hw. cbn. rewrite Hl. cbn. reflexivity.
  - cbn. repeat split; reflexivity.
Qed.

Lemma beat_first_call_witness :
  exists b',
    beat (swing 1000) sketch = Done (0, b')
    /\ b' = set_lastTime (to_ulong (micros (swing 1000))) sketch
    /\ lastTime b' = to_ulong (micros (swing 1000))
    /\ cycleCounter b' = cycleCounter sketch
    /\ curSmoothing b' = curSmoothing sketch
    /\ tick b' = tick sketch
    /\ tickAvg b' = tickAvg sketch
    /\ tockAvg b' = tockAvg sketch
    /\ uspb b' = uspb sketch
    /\ runMode b' = runMode sketch.
Proof.
  apply (beat_first_call (swing 1000) sketch 4); reflexivity.
Defined.
(** ** CALFINISH *)

(** What [beat] does once the passage has been seen and a prior timestamp
    exists. *)
Ltac enter_beat Hw Hl :=
  unfold beat; rewrite Hw; cbn [bind];
  rewrite (proj2 (Z.eqb_neq _ _) Hl).

(** C7, as the code has it.  For every state in CALFINISH mode that has a
    prior timestamp recorded, the next call of [beat] switches the mode to
    RUNNING, leaves the beat duration unchanged and returns it. *)
Theorem beat_calfinish_to_running (p : Passage) (b : Bendulum) (pastCoil : Z) :
  runMode b = CALFINISH ->
  lastTime b <> 0 ->
  watch (peakScale b) (coil p) = Done pastCoil ->
  exists b',
    beat p b = Done (uspb b, b')
    /\ runMode b' = RUNNING
    /\ uspb b' = uspb b.
Proof.
  intros Hm Hl Hw. eexists. split.
  - enter_beat Hw Hl. rewrite Hm. cbn. reflexivity.
  - cbn. split; reflexivity.
Qed.

Lemma beat_calfinish_to_running_witness :
  exists b',
    beat (swing 1001000) (setRunMode CALFINISH (set_lastTime 1000 sketch))
    = Done (uspb (setRunMode CALFINISH (set_lastTime 1000 sketch)), b')
    /\ runMode b' = RUNNING
    /\ uspb b' = uspb (setRunMode CALFINISH (set_lastTime 1000 sketch)).
Proof.
  apply (beat_calfinish_to_running (swing 1001000)
           (setRunMode CALFINISH (set_lastTime 1000 sketch)) 4).
  - reflexivity.
  - cbn. lia.
  - reflexivity.
Defined.

(** C7 as stated fails on a state without a prior timestamp: the sketch's
    object put into CALFINISH before its first beat is still in CALFINISH
    after that beat. *)
Lemma calfinish_outlives_first_call :
  runMode (setRunMode CALFINISH sketch) = CALFINISH
  /\ exists b',
       beat (swing 1000) (setRunMode CALFINISH sketch) = Done (0, b')
       /\ runMode b' = CALFINISH
       /\ runMode b' <> RUNNING.
Proof.
  split; [reflexivity |].
  run_exists. split; [reflexivity | discriminate].
Qed.

(** RUNNING is left by no beat. *)
Lemma beat_running_stays (p : Passage) (b : Bendulum) (r : Z * Bendulum) :
  runMode b = RUNNING -> beat p b = Done r ->
  runMode (snd r) = RUNNING /\ uspb (snd r) = uspb b.
Proof.
  intros Hm H. unfold beat in H. bind_inv H.
  destruct (lastTime b =? 0).
  - injection H as <-. cbn. auto.
  - rewrite Hm in H. cbn in H. injection H as <-. cbn. auto.
Qed.

(** ** The clock correction *)

Lemma quot_864000 (m : Z) :
  (0 <= m -> 864000 * (m ÷ 864000) <= m < 864000 * (m ÷ 864000) + 864000)
  /\ (m <= 0 -> 864000 * (m ÷ 864000) - 864000 < m <= 864000 * (m ÷ 864000)).
Proof.
  pose proof (Z.quot_rem' m 864000) as E. split; intros Hm.
  - pose proof (Z.rem_bound_pos_pos m 864000 ltac:(lia) Hm). lia.
  - pose proof (Z.rem_bound_pos_neg m 864000 ltac:(lia) Hm). lia.
Qed.

Lemma quot_864000_abs (m : Z) :
  -864000 < 864000 * (m ÷ 864000) - m < 864000.
Proof.
  destruct (quot_864000 m) as [Hp Hn].
  destruct (Z_le_gt_dec 0 m); [specialize (Hp ltac:(lia)) | specialize (Hn ltac:(lia))]; lia.
Qed.

Lemma clock_corr_exact (b r : Z) :
  in_long r -> corr_fits b r -> in_long (corrected_spec r b) ->
  clock_corr b r = corrected_spec r b.
Proof.
  intros Hr [H1 H2] H3. unfold clock_corr, corrected_spec in *.
  rewrite (to_long_id (b * r)) by exact H1.
  rewrite (to_long_id (b * r + 432000)) by exact H2.
  apply to_long_id. exact H3.
Qed.

(** The raw interval is the difference of the two timestamps also when
    [micros()] has wrapped around between them. *)
Lemma elapsed_mod (topTime last r : Z) :
  0 <= r <= 2147483647 ->
  (topTime - last) mod 2 ^ 32 = r ->
  elapsed topTime last = r.
Proof.
  intros Hr E. unfold elapsed, to_ulong. rewrite E.
  apply to_long_id. unfold in_long. lia.
Qed.

(** The arithmetic of the correction where its products fit. *)
Lemma clock_corr_arith (r b : Z) :
  0 <= r <= 5000000 ->
  corr_fits b r ->
  clock_corr b r = corrected_spec r b
  /\ -864000 < 864000 * (clock_corr b r - r) - (b * r + 432000) < 864000
  /\ forall b', corr_fits b' r -> corr_fits (b + b') r ->
       -2 <= (clock_corr (b + b') r - r)
             - ((clock_corr b r - r) + (clock_corr b' r - r)) <= 2.
Proof.
  intros Hr Hf.
  assert (Hx : forall k, corr_fits k r -> clock_corr k r = corrected_spec r k).
  { intros k Hk. apply clock_corr_exact; [unfold in_long; lia | exact Hk |].
    destruct Hk as [K1 K2]. unfold corrected_spec, in_long in *.
    pose proof (quot_864000_abs (k * r + 432000)). lia. }
  split; [apply Hx; exact Hf |]. split.
  - rewrite (Hx b Hf). unfold corrected_spec.
    pose proof (quot_864000_abs (b * r + 432000)). lia.
  - intros b' Hf' Hs. rewrite (Hx b Hf), (Hx b' Hf'), (Hx _ Hs).
    unfold corrected_spec.
    pose proof (quot_864000 (b * r + 432000)) as [P1 N1].
    pose proof (quot_864000 (b' * r + 432000)) as [P2 N2].
    pose proof (quot_864000 ((b + b') * r + 432000)) as [P3 N3].
    replace ((b + b') * r) with (b * r + b' * r) in * by ring.
    destruct (Z_le_gt_dec 0 (b * r + 432000));
      destruct (Z_le_gt_dec 0 (b' * r + 432000));
      destruct (Z_le_gt_dec 0 (b * r + b' * r + 432000));
      repeat match goal with
             | H : 0 <= ?m -> _ |- _ =>
                 first [specialize (H ltac:(lia)) | clear H]
             | H : ?m <= 0 -> _ |- _ =>
                 first [specialize (H ltac:(lia)) | clear H]
             end; lia.
Qed.

(** A measured beat in SETTLING or SCALING mode: the beat duration, which
    is returned and recorded as the tick or tock period, is the corrected
    interval, or 0 when that exceeds five seconds. *)
Lemma beat_measures (p : Passage) (s : Bendulum) (pastCoil : Z) :
  runMode s = SETTLING \/ runMode s = SCALING ->
  lastTime s <> 0 ->
  watch (peakScale s) (coil p) = Done pastCoil ->
  exists s',
    beat p s = Done (uspb s', s')
    /\ uspb s'
       = (if clock_corr (bias s) (elapsed (to_ulong (micros p)) (lastTime s)) >? 5000000
          then 0
          else clock_corr (bias s) (elapsed (to_ulong (micros p)) (lastTime s)))
    /\ (if tick s then tickPeriod s' else tockPeriod s') = uspb s'.
Proof.
  intros Hm Hl Hw.
  destruct Hm as [Hm | Hm]; enter_beat Hw Hl; rewrite Hm; cbn.
  - destruct (tick s) eqn:Ht; cbn.
    + eexists. split; [apply Done_returns_uspb; reflexivity |]. cbn. auto.
    + destruct (to_int (cycleCounter s + 1) >? tgtSettle s);
        eexists; (split; [apply Done_returns_uspb; reflexivity |]); cbn; auto.
  - destruct (pastCoil >? maxPeak); cbn; destruct (tick s) eqn:Ht; cbn;
      try (eexists; split; [apply Done_returns_uspb; reflexivity |]; cbn; auto; fail);
      destruct (to_int (cycleCounter s + 1) >? tgtScale s);
      eexists; (split; [apply Done_returns_uspb; reflexivity |]); cbn; auto.
Qed.

(** C1, as the code has it.  For a raw interval [0 <= r <= 5,000,000] and a
    bias [b] whose products [b * r] and [b * r + 432000] fit a [long], the
    corrected interval is [r + (b * r + 432000) / 864000], the division
    truncating toward zero, so that the correction differs from the exact
    quotient [(b * r + 432000) / 864000] by less than one.  The correction
    is additive in [b] up to rounding: for [b1], [b2] and [b1 + b2] in that
    range the correction for [b1 + b2] differs from the sum of the two
    corrections by at most 2.  That corrected interval is what a measured
    beat in SETTLING or SCALING mode returns as the beat duration when it
    does not exceed five seconds, the two timestamps being [r] apart on the
    32-bit clock. *)
Theorem clock_corr_rounded (r b : Z) :
  0 <= r <= 5000000 ->
  corr_fits b r ->
  clock_corr b r = corrected_spec r b
  /\ -864000 < 864000 * (clock_corr b r - r) - (b * r + 432000) < 864000
  /\ (forall b', corr_fits b' r -> corr_fits (b + b') r ->
       -2 <= (clock_corr (b + b') r - r)
             - ((clock_corr b r - r) + (clock_corr b' r - r)) <= 2)
  /\ (forall p s pastCoil,
        runMode s = SETTLING \/ runMode s = SCALING ->
        lastTime s <> 0 ->
        watch (peakScale s) (coil p) = Done pastCoil ->
        bias s = b ->
        (to_ulong (micros p) - lastTime s) mod 2 ^ 32 = r ->
        corrected_spec r b <= 5000000 ->
        exists s',
          beat p s = Done (corrected_spec r b, s')
          /\ uspb s' = corrected_spec r b).
Proof.
  intros Hr Hf.
  destruct (clock_corr_arith r b Hr Hf) as (Hx & Hb & Hadd).
  split; [exact Hx |]. split; [exact Hb |]. split; [exact Hadd |].
  intros p s pc Hm Hl Hw Hbias Hel Hle.
  destruct (beat_measures p s pc Hm Hl Hw) as (s' & Hs' & Hu & _).
  rewrite (elapsed_mod _ _ r ltac:(lia) Hel), Hbias, Hx in Hu.
  assert (Hg : (corrected_spec r b >? 5000000) = false)
    by (rewrite Z.gtb_ltb; apply Z.ltb_ge; exact Hle).
  rewrite Hg in Hu.
  exists s'. rewrite <- Hu. split; [exact Hs' | reflexivity].
Qed.

Lemma clock_corr_rounded_witness :
  (0 <= 1000000 <= 5000000)
  /\ corr_fits 10 1000000
  /\ clock_corr 10 1000000 = corrected_spec 1000000 10
  /\ exists s',
       beat (swing 2001000) (setBias 10 settled_1s) = Done (1000012, s').
Proof.
  assert (Hr : 0 <= 1000000 <= 5000000) by lia.
  assert (Hf : corr_fits 10 1000000) by (unfold corr_fits, in_long; lia).
  destruct (clock_corr_rounded 1000000 10 Hr Hf) as (Hx & _ & _ & Hbeat).
  split; [exact Hr |]. split; [exact Hf |]. split; [exact Hx |].
  destruct (Hbeat (swing 2001000) (setBias 10 settled_1s) 4) as (s' & Hs' & _).
  - left. reflexivity.
  - cbn. lia.
  - reflexivity.
  - reflexivity.
  - vm_compute. reflexivity.
  - vm_compute. discriminate.
  - exists s'. exact Hs'.
Defined.

(** The scenario of the specification: bias +10 and a raw interval of one
    second give 1,000,012 microseconds. *)
Example clock_corr_scenario : clock_corr 10 1000000 = 1000012.
Proof. reflexivity. Qed.

(** C1 as stated fails twice.  A bias of 3000 (five minutes a day, within a
    ceramic resonator's tolerance) on a one-second interval makes the product
    [bias * uspb] leave the [long] range, and the result is 998,502 instead
    of 1,003,472.  And the correction is not additive in the bias: for one
    second it is 12 at bias 10 and 23, not 24, at bias 20. *)
Lemma clock_corr_not_formula_nor_linear :
  (in_int 3000 /\ 0 <= 1000000 <= 5000000
   /\ clock_corr 3000 1000000 = 998502
   /\ corrected_spec 1000000 3000 = 1003472
   /\ clock_corr 3000 1000000 <> corrected_spec 1000000 3000)
  /\ (clock_corr 10 1000000 - 1000000 = 12
      /\ clock_corr 20 1000000 - 1000000 = 23
      /\ clock_corr (10 + 10) 1000000 - 1000000
         <> (clock_corr 10 1000000 - 1000000) + (clock_corr 10 1000000 - 1000000)).
Proof.
  unfold in_int. repeat split; try reflexivity; try lia;
    vm_compute; discriminate.
Qed.

(** ** Implausible intervals *)


(** [settled_1s] is the sketch's object after two calls a second apart. *)
Example settled_1s_reached :
  beats [swing 1000; swing 1001000] sketch = Done settled_1s.
Proof. vm_compute. reflexivity. Qed.



(** ** Calibrating *)

(** C division by a positive [n] brings a number toward zero. *)
Lemma quot_toward_zero (d n : Z) :
  1 <= n ->
  (0 <= d -> 0 <= d ÷ n <= d) /\ (d <= 0 -> d <= d ÷ n <= 0).
Proof.
  intros Hn. pose proof (Z.quot_rem' d n) as E.
  split; intros Hd.
  - pose proof (Z.rem_bound_pos_pos d n ltac:(lia) Hd) as R.
    assert (Hq : 0 <= d ÷ n) by (apply Z.quot_pos; lia).
    split; [exact Hq |].
    assert (1 * (d ÷ n) <= n * (d ÷ n)) by (apply Z.mul_le_mono_nonneg_r; lia).
    lia.
  - pose proof (Z.rem_bound_pos_neg d n ltac:(lia) Hd) as R.
    assert (Hq : d ÷ n <= 0).
    { destruct (Z_le_gt_dec (d ÷ n) 0) as [L | G]; [exact L |].
      assert (n * 1 <= n * (d ÷ n)) by (apply Z.mul_le_mono_nonneg_l; lia).
      lia. }
    split; [| exact Hq].
    assert (n * (d ÷ n) <= 1 * (d ÷ n)) by (apply Z.mul_le_mono_nonpos_r; lia).
    lia.
Qed.

(** Over the integers that is [avg + (sample - avg) / n] whenever the
    difference fits a [long] and [n] is positive: the new average lies
    between the old one and the sample. *)
Lemma smooth_exact (avg sample n : Z) :
  in_long avg -> in_long sample -> in_long (sample - avg) -> 1 <= n ->
  smooth avg sample n = avg + (sample - avg) ÷ n.
Proof.
  unfold smooth, in_long. intros Ha Hs Hd Hn.
  rewrite (to_long_id (sample - avg)) by exact Hd.
  destruct (quot_toward_zero (sample - avg) n Hn) as [Hp Hm].
  destruct (Z_le_gt_dec 0 (sample - avg)) as [L | G];
    [specialize (Hp L); clear Hm | specialize (Hm ltac:(lia)); clear Hp];
    (rewrite (to_long_id ((sample - avg) ÷ n)) by (unfold in_long; lia));
    apply to_long_id; unfold in_long; lia.
Qed.

(** A measured beat in CALIBRATING mode as the machine computes it, the
    smoothing counter being nonzero: every result in the wrapping [long]
    and [int] arithmetic of the code. *)
Lemma beat_calibrating_machine (p : Passage) (b : Bendulum) (pastCoil : Z) :
  runMode b = CALIBRATING ->
  lastTime b <> 0 ->
  curSmoothing b <> 0 ->
  watch (peakScale b) (coil p) = Done pastCoil ->
  exists b',
    beat p b = Done (uspb b', b')
    /\ (tick b = true \/ tickAvg b = 0 ->
        tickPeriod b' = clock_corr (bias b) (elapsed (to_ulong (micros p)) (lastTime b))
        /\ tickAvg b' = smooth (tickAvg b) (tickPeriod b') (curSmoothing b)
        /\ tockAvg b' = tockAvg b
        /\ curSmoothing b' = curSmoothing b
        /\ runMode b' = CALIBRATING
        /\ tick b' = false)
    /\ (tick b = false /\ tickAvg b <> 0 ->
        tockPeriod b' = clock_corr (bias b) (elapsed (to_ulong (micros p)) (lastTime b))
        /\ tockAvg b' = smooth (tockAvg b) (tockPeriod b') (curSmoothing b)
        /\ tickAvg b' = tickAvg b
        /\ curSmoothing b' = to_int (curSmoothing b + 1)
        /\ runMode b' = (if curSmoothing b' >? tgtSmoothing b
                         then CALFINISH else CALIBRATING)
        /\ tick b' = true)
    /\ uspb b' = (if tockAvg b' =? 0 then tickAvg b'
                  else to_long (tickAvg b' + tockAvg b') ÷ 2)
    /\ (forall b0, curSmoothing (setRunMode CALIBRATING b0) = 1
                   /\ tickAvg (setRunMode CALIBRATING b0) = 0
                   /\ tockAvg (setRunMode CALIBRATING b0) = 0).
Proof.
  intros Hm Hl Hn Hw.
  assert (Hn' : (curSmoothing b =? 0) = false) by (apply Z.eqb_neq; exact Hn).
  enter_beat Hw Hl. rewrite Hm.
  destruct (tick b) eqn:Ht.
  - (* tick *)
    rewrite andb_false_r. cbn. rewrite Ht. unfold div_long. cbn. rewrite Hn'. cbn.
    destruct (tockAvg b =? 0) eqn:Eo; cbn;
      (eexists; split; [apply Done_returns_uspb; reflexivity |]);
      cbn; unfold smooth; rewrite ?Eo, ?Hm, ?Ht; cbn;
      (split; [intros _; repeat split; reflexivity |]);
      (split; [intros [E _]; discriminate |]);
      (split; [reflexivity |]); intros b0; repeat split; reflexivity.
  - destruct (tickAvg b =? 0) eqn:Ea.
    + (* a tock turned into a tick *)
      apply Z.eqb_eq in Ea.
      cbn. unfold div_long. cbn. rewrite Hn'. cbn.
      destruct (tockAvg b =? 0) eqn:Eo; cbn;
        (eexists; split; [apply Done_returns_uspb; reflexivity |]);
        cbn; unfold smooth; rewrite ?Eo, ?Hm; cbn;
        (split; [intros _; repeat split; reflexivity |]);
        (split; [intros [_ E]; contradiction |]);
        (split; [reflexivity |]); intros b0; repeat split; reflexivity.
    + (* tock *)
      apply Z.eqb_neq in Ea.
      cbn. rewrite Ht. unfold div_long. cbn. rewrite Hn'. cbn.
      set (sample := clock_corr (bias b) (elapsed (to_ulong (micros p)) (lastTime b))).
      fold (smooth (tockAvg b) sample (curSmoothing b)).
      destruct (to_int (curSmoothing b + 1) >? tgtSmoothing b) eqn:Eg; cbn;
        destruct (smooth (tockAvg b) sample (curSmoothing b) =? 0) eqn:Eo; cbn;
        (eexists; split; [apply Done_returns_uspb; reflexivity |]);
        cbn; rewrite ?Eo, ?Eg, ?Hm, ?Ht; cbn;
        (split; [intros [E | E]; [discriminate | contradiction] |]);
        (split; [intros _; repeat split; reflexivity |]);
        (split; [reflexivity |]); intros b0; repeat split; reflexivity.
Qed.

(** C3, as the code has it.  A measured beat in CALIBRATING mode where
    nothing overflows: the two timestamps are [r <= 2,147,483,647] apart on
    the 32-bit clock, the products of the correction and the corrected
    interval [s = r + (bias * r + 432000) / 864000] fit a [long], so do both
    averages, and the smoothing counter [n] is between 1 and 32766.  The
    beat counts as a tick when the tick flag is set, and also when it is
    not but [tickAvg] is zero (a calibration that starts on a tock is turned
    tick-first).  A tick, [s - tickAvg] and the sum of the two averages
    fitting a [long], makes [tickAvg] the integer
    [tickAvg + (s - tickAvg) / n] and leaves [n]; a tock does the same to
    [tockAvg], then increments [n], and switches to CALFINISH when [n] has
    come to exceed [tgtSmoothing].  The beat duration, which is returned,
    is [tickAvg] alone while [tockAvg] is zero, else the integer
    [(tickAvg + tockAvg) / 2].  On entering CALIBRATING [n] is 1 and both
    averages are 0. *)
Theorem beat_calibrating_step
  (p : Passage) (b : Bendulum) (pastCoil r : Z) :
  runMode b = CALIBRATING ->
  lastTime b <> 0 ->
  watch (peakScale b) (coil p) = Done pastCoil ->
  (to_ulong (micros p) - lastTime b) mod 2 ^ 32 = r ->
  0 <= r <= 2147483647 ->
  corr_fits (bias b) r ->
  in_long (corrected_spec r (bias b)) ->
  1 <= curSmoothing b <= 32766 ->
  in_long (tickAvg b) ->
  in_long (tockAvg b) ->
  exists b',
    beat p b = Done (uspb b', b')
    /\ (tick b = true \/ tickAvg b = 0 ->
        in_long (corrected_spec r (bias b) - tickAvg b) ->
        in_long (smooth_spec (tickAvg b) (corrected_spec r (bias b)) (curSmoothing b)
                 + tockAvg b) ->
        tickPeriod b' = corrected_spec r (bias b)
        /\ tickAvg b'
           = smooth_spec (tickAvg b) (corrected_spec r (bias b)) (curSmoothing b)
        /\ tockAvg b' = tockAvg b
        /\ curSmoothing b' = curSmoothing b
        /\ runMode b' = CALIBRATING
        /\ tick b' = false
        /\ uspb b' = (if tockAvg b =? 0 then tickAvg b'
                      else (tickAvg b' + tockAvg b) ÷ 2))
    /\ (tick b = false /\ tickAvg b <> 0 ->
        in_long (corrected_spec r (bias b) - tockAvg b) ->
        in_long (tickAvg b
                 + smooth_spec (tockAvg b) (corrected_spec r (bias b)) (curSmoothing b)) ->
        tockPeriod b' = corrected_spec r (bias b)
        /\ tockAvg b'
           = smooth_spec (tockAvg b) (corrected_spec r (bias b)) (curSmoothing b)
        /\ tickAvg b' = tickAvg b
        /\ curSmoothing b' = curSmoothing b + 1
        /\ runMode b' = (if curSmoothing b + 1 >? tgtSmoothing b
                         then CALFINISH else CALIBRATING)
        /\ tick b' = true
        /\ uspb b' = (if tockAvg b' =? 0 then tickAvg b
                      else (tickAvg b + tockAvg b') ÷ 2))
    /\ (forall b0, curSmoothing (setRunMode CALIBRATING b0) = 1
                   /\ tickAvg (setRunMode CALIBRATING b0) = 0
                   /\ tockAvg (setRunMode CALIBRATING b0) = 0).
Proof.
  intros Hm Hl Hw Hel Hr Hf Hs Hn Ha Ho.
  destruct (beat_calibrating_machine p b pastCoil Hm Hl ltac:(lia) Hw)
    as (b' & Hb' & Htk & Htock & Hu & Hentry).
  assert (Hsample : clock_corr (bias b) (elapsed (to_ulong (micros p)) (lastTime b))
                    = corrected_spec r (bias b)).
  { rewrite (elapsed_mod _ _ r Hr Hel).
    apply clock_corr_exact; [unfold in_long; lia | exact Hf | exact Hs]. }
  rewrite Hsample in Htk, Htock.
  exists b'. split; [exact Hb' |]. split; [| split; [| exact Hentry]].
  - intros H Hd Hsum.
    destruct (Htk H) as (E1 & E2 & E3 & E4 & E5 & E6).
    rewrite E1 in E2. rewrite smooth_exact in E2 by (assumption || lia).
    fold (smooth_spec (tickAvg b) (corrected_spec r (bias b)) (curSmoothing b)) in E2.
    repeat (split; [assumption |]).
    rewrite Hu, E3, E2. destruct (tockAvg b =? 0); [reflexivity |].
    rewrite to_long_id by exact Hsum. reflexivity.
  - intros H Hd Hsum.
    destruct (Htock H) as (E1 & E2 & E3 & E4 & E5 & E6).
    rewrite E1 in E2. rewrite smooth_exact in E2 by (assumption || lia).
    fold (smooth_spec (tockAvg b) (corrected_spec r (bias b)) (curSmoothing b)) in E2.
    assert (Hint : to_int (curSmoothing b + 1) = curSmoothing b + 1)
      by (apply to_int_id; unfold in_int; lia).
    rewrite Hint in E4. rewrite E4 in E5.
    repeat (split; [assumption |]).
    rewrite Hu, E3, E2.
    destruct (smooth_spec (tockAvg b) (corrected_spec r (bias b)) (curSmoothing b) =? 0);
      [reflexivity |].
    rewrite to_long_id by exact Hsum. reflexivity.
Qed.

(** The start of a calibration at a bias of 10: the first tick, a second
    after the last passage, makes [tickAvg] and the beat duration
    1,000,012. *)
Lemma beat_calibrating_step_witness :
  exists b',
    beat (swing 1001000) (setBias 10 calib_start) = Done (1000012, b')
    /\ tickPeriod b' = corrected_spec 1000000 10
    /\ tickAvg b' = smooth_spec 0 (corrected_spec 1000000 10) 1
    /\ tickAvg b' = 1000012
    /\ uspb b' = 1000012.
Proof.
  destruct (beat_calibrating_step (swing 1001000) (setBias 10 calib_start) 4 1000000)
    as (b' & Hb' & Htk & _).
  - reflexivity.
  - cbn. lia.
  - reflexivity.
  - vm_compute. reflexivity.
  - lia.
  - unfold corr_fits, in_long. cbn. lia.
  - vm_compute. split; discriminate.
  - cbn. lia.
  - vm_compute. split; discriminate.
  - vm_compute. split; discriminate.
  - destruct Htk as (E1 & E2 & _ & _ & _ & _ & E7).
    + left. reflexivity.
    + vm_compute. split; discriminate.
    + vm_compute. split; discriminate.
    + exists b'.
      assert (Eu : uspb b' = 1000012) by (rewrite E7, E2; vm_compute; reflexivity).
      rewrite Eu in Hb'.
      split; [exact Hb' |]. split; [exact E1 |]. split; [exact E2 |].
      split; [rewrite E2; vm_compute; reflexivity | exact Eu].
Defined.

(** C3 as stated fails where the [long] arithmetic overflows.  Two beats of
    1500 seconds each give both averages 1,500,000,000, and the beat
    duration reported is -647,483,648, not their mean: the sum wraps around
    before it is halved.  And at a bias of 3000 the sample averaged for a
    one-second interval is 998,502, not the corrected 1,003,472. *)
Lemma calibrating_mean_overflows :
  (exists b1 b2,
     beat (swing 1500001000) calib_start = Done (1500000000, b1)
     /\ runMode b1 = CALIBRATING
     /\ beat (swing 3000001000) b1 = Done (-647483648, b2)
     /\ tickAvg b2 = 1500000000
     /\ tockAvg b2 = 1500000000
     /\ uspb b2 = -647483648
     /\ uspb b2 <> (tickAvg b2 + tockAvg b2) ÷ 2)
  /\ (exists b3,
        beat (swing 1001000) (setBias 3000 calib_start) = Done (998502, b3)
        /\ tickPeriod b3 = 998502
        /\ tickAvg b3 = 998502
        /\ corrected_spec 1000000 3000 = 1003472).
Proof.
  split.
  - eexists. eexists. split; [vm_compute; reflexivity |].
    split; [reflexivity |]. split; [vm_compute; reflexivity |].
    repeat (split; [reflexivity |]). vm_compute. discriminate.
  - eexists. split; [vm_compute; reflexivity |].
    repeat (split; [reflexivity |]). vm_compute. reflexivity.
Qed.

(** A calibration of two cycles on the sketch's object, the beats a second
    apart: tick, tock (the counter goes to 2), tick, tock (the counter goes
    to 3, which exceeds 2: CALFINISH), and one more beat for RUNNING. *)
Example calibration_run :
  exists b1 b2,
    beats [swing 1001000; swing 2001000; swing 3001000; swing 4001000]
      (setTgtSmoothing 2 calib_start) = Done b1
    /\ runMode b1 = CALFINISH /\ uspb b1 = 1000000 /\ curSmoothing b1 = 3
    /\ beats [swing 5001000] b1 = Done b2
    /\ runMode b2 = RUNNING /\ uspb b2 = 1000000.
Proof.
  do 2 eexists. split; [vm_compute; reflexivity |].
  repeat split; vm_compute; reflexivity.
Qed.

(** ** Settling *)

(** One measured beat in SETTLING mode. *)
Lemma beat_settling_step (p : Passage) (b : Bendulum) :
  runMode b = SETTLING ->
  lastTime b <> 0 ->
  seen (peakScale b) p ->
  exists r,
    beat p b = Done r
    /\ tick (snd r) = negb (tick b)
    /\ lastTime (snd r) <> 0
    /\ tgtSettle (snd r) = tgtSettle b
    /\ (tick b = true ->
        runMode (snd r) = SETTLING
        /\ cycleCounter (snd r) = cycleCounter b
        /\ peakScale (snd r) = peakScale b)
    /\ (tick b = false -> to_int (cycleCounter b + 1) <= tgtSettle b ->
        runMode (snd r) = SETTLING
        /\ cycleCounter (snd r) = to_int (cycleCounter b + 1)
        /\ peakScale (snd r) = peakScale b)
    /\ (tick b = false -> tgtSettle b < to_int (cycleCounter b + 1) ->
        runMode (snd r) = SCALING
        /\ cycleCounter (snd r) = 1
        /\ peakScale (snd r) = 10).
Proof.
  intros Hm Hl [Ht [pc Hw]].
  enter_beat Hw Hl. rewrite Hm. cbn.
  destruct (tick b) eqn:Etick; cbn.
  - eexists. split; [reflexivity |]. cbn. rewrite Etick, Hm.
    repeat split; auto; discriminate.
  - destruct (to_int (cycleCounter b + 1) >? tgtSettle b) eqn:Eg;
      (eexists; split; [reflexivity |]); cbn; rewrite ?Etick, ?Hm;
      [apply Z.gtb_lt in Eg | rewrite Z.gtb_ltb in Eg; apply Z.ltb_ge in Eg];
      repeat split; auto; try discriminate; intros; lia.
Qed.

Lemma settling_run (ps : list Passage) :
  forall b : Bendulum,
    runMode b = SETTLING ->
    lastTime b <> 0 ->
    1 <= cycleCounter b <= tgtSettle b ->
    tgtSettle b <= 32766 ->
    Forall (seen (peakScale b)) ps ->
    Z.of_nat (length ps) <= settle_left b ->
    exists b',
      beats ps b = Done b'
      /\ tgtSettle b' = tgtSettle b
      /\ (Z.of_nat (length ps) < settle_left b ->
          runMode b' = SETTLING
          /\ settle_left b' = settle_left b - Z.of_nat (length ps)
          /\ 1 <= cycleCounter b' <= tgtSettle b)
      /\ (Z.of_nat (length ps) = settle_left b ->
          runMode b' = SCALING /\ cycleCounter b' = 1).
Proof.
  induction ps as [| p ps IH]; intros b Hm Hl Hc HN Hps Hlen.
  - exists b. cbn [length Z.of_nat] in *. split; [reflexivity |].
    split; [reflexivity |]. split.
    + intros _. repeat split; try assumption; lia.
    + intros E. unfold settle_left in E. destruct (tick b); lia.
  - inversion Hps as [| ? ? Hp Hps']; subst.
    destruct (beat_settling_step p b Hm Hl Hp)
      as (r & Hr & Htick & Hl1 & Htgt & Htk & Htock & Hend).
    cbn [beats]. rewrite Hr. cbn [bind].
    assert (Hint : to_int (cycleCounter b + 1) = cycleCounter b + 1)
      by (apply to_int_id; unfold in_int; lia).
    rewrite Hint in *.
    change (Z.of_nat (length (p :: ps))) with (Z.of_nat (S (length ps))) in *.
    rewrite Nat2Z.inj_succ in *.
    destruct (tick b) eqn:Etick.
    + (* a tick: the mode stays *)
      destruct (Htk eq_refl) as (Hm1 & Hc1 & Hp1).
      assert (Hleft : settle_left (snd r) = settle_left b - 1).
      { unfold settle_left. rewrite Htgt, Hc1, Htick, Etick. cbn [negb]. lia. }
      destruct (IH (snd r)) as (b' & Hb' & Ht' & Hlt & Heq);
        try assumption; try (rewrite ?Htgt, ?Hc1, ?Hp1; assumption || lia).
      exists b'. split; [exact Hb' |]. split; [congruence |]. split.
      * intros H. destruct Hlt as (A & B & C); [lia |]. rewrite Htgt in C.
        repeat split; try assumption; lia.
      * intros H. apply Heq. lia.
    + destruct (Z_le_gt_dec (cycleCounter b + 1) (tgtSettle b)) as [Hle | Hgt].
      * (* a tock that does not finish settling *)
        destruct (Htock eq_refl Hle) as (Hm1 & Hc1 & Hp1).
        assert (Hleft : settle_left (snd r) = settle_left b - 1).
        { unfold settle_left. rewrite Htgt, Hc1, Htick, Etick. cbn [negb]. lia. }
        destruct (IH (snd r)) as (b' & Hb' & Ht' & Hlt & Heq);
          try assumption; try (rewrite ?Htgt, ?Hc1, ?Hp1; assumption || lia).
        exists b'. split; [exact Hb' |]. split; [congruence |]. split.
        -- intros H. destruct Hlt as (A & B & C); [lia |]. rewrite Htgt in C.
           repeat split; try assumption; lia.
        -- intros H. apply Heq. lia.
      * (* the tock that finishes settling: no beat is left *)
        destruct (Hend eq_refl ltac:(lia)) as (Hm1 & Hc1 & Hp1).
        assert (Hone : settle_left b = 1) by (unfold settle_left; rewrite Etick; lia).
        destruct ps as [| q ps]; [| cbn [length] in Hlen; lia].
        exists (snd r). cbn [beats]. split; [reflexivity |]. split; [exact Htgt |].
        cbn [length Z.of_nat]. split; [lia | auto].
Qed.

(** C6, as the code has it.  Take a state in SETTLING mode with the cycle
    counter at 1, on a tick, with a prior timestamp recorded (the
    constructor's state after the first call of [beat]) and a target
    [tgtSettle = N] with [1 <= N <= 32766].  Over measured beats the engine
    stays in SETTLING for exactly [N] cycles: after [k < 2 * N] beats it is
    in SETTLING with [getCycleCounter] at [1 + k / 2], and the beat number
    [2 * N], the [N]-th tock, puts it in SCALING with the counter back at
    1. *)
Theorem settling_lasts_N_cycles (N : Z) (ps : list Passage) (b : Bendulum) :
  1 <= N <= 32766 ->
  runMode b = SETTLING ->
  cycleCounter b = 1 ->
  tick b = true ->
  lastTime b <> 0 ->
  tgtSettle b = N ->
  Forall (seen (peakScale b)) ps ->
  Z.of_nat (length ps) <= 2 * N ->
  exists b',
    beats ps b = Done b'
    /\ (Z.of_nat (length ps) < 2 * N ->
        runMode b' = SETTLING
        /\ getCycleCounter b' = 1 + Z.of_nat (length ps) / 2)
    /\ (Z.of_nat (length ps) = 2 * N ->
        runMode b' = SCALING /\ getCycleCounter b' = 1).
Proof.
  intros HN Hm Hc Ht Hl Htgt Hps Hlen.
  assert (Hleft : settle_left b = 2 * N)
    by (unfold settle_left; rewrite Htgt, Hc, Ht; lia).
  destruct (settling_run ps b) as (b' & Hb' & Ht' & Hlt & Heq);
    try assumption; try lia.
  exists b'. split; [exact Hb' |]. split.
  - intros H. destruct Hlt as (A & B & C); [lia |].
    split; [exact A |]. unfold getCycleCounter. rewrite A. cbv beta iota.
    rewrite Hleft in B. unfold settle_left in B. rewrite Ht', Htgt in B.
    destruct (tick b'); Z.div_mod_to_equations; lia.
  - intros H. destruct Heq as (A & B); [lia |].
    split; [exact A |]. unfold getCycleCounter. rewrite A. exact B.
Qed.

Example settle_1_reached : beats [swing 1000] (setTgtSettle 1 sketch) = Done settle_1.
Proof. vm_compute. reflexivity. Qed.

Lemma settling_lasts_N_cycles_witness :
  exists b',
    beats [swing 1001000; swing 2001000] settle_1 = Done b'
    /\ (Z.of_nat (length [swing 1001000; swing 2001000]) < 2 * 1 ->
        runMode b' = SETTLING
        /\ getCycleCounter b' = 1 + Z.of_nat (length [swing 1001000; swing 2001000]) / 2)
    /\ (Z.of_nat (length [swing 1001000; swing 2001000]) = 2 * 1 ->
        runMode b' = SCALING /\ getCycleCounter b' = 1).
Proof.
  apply (settling_lasts_N_cycles 1 [swing 1001000; swing 2001000] settle_1).
  - lia.
  - reflexivity.
  - reflexivity.
  - reflexivity.
  - cbn. lia.
  - reflexivity.
  - repeat constructor; try (vm_compute; discriminate);
      exists 4; vm_compute; reflexivity.
  - cbn. lia.
Defined.

(** C6 as stated fails twice.  For [N = 0]: the counter is compared after
    it has been incremented at a tock, so a target of 0 still takes a whole
    cycle; after the first call and one measured beat (more than [2 * 0])
    the sketch's object is still in SETTLING, and the second measured beat
    puts it in SCALING.  And for a start on a tock: [setRunMode(SETTLING)]
    leaves the tick flag alone, so with [N = 1] and the flag on tock the
    first measured beat, not the second, puts the engine in SCALING. *)
Lemma settling_target_zero_takes_a_cycle :
  (tgtSettle (setTgtSettle 0 sketch) = 0
   /\ (exists b1,
         beats [swing 1000; swing 1001000] (setTgtSettle 0 sketch) = Done b1
         /\ runMode b1 = SETTLING)
   /\ (exists b2,
         beats [swing 1000; swing 1001000; swing 2001000] (setTgtSettle 0 sketch)
         = Done b2
         /\ runMode b2 = SCALING))
  /\ (runMode (setRunMode SETTLING (setTgtSettle 1 settled_1s)) = SETTLING
      /\ cycleCounter (setRunMode SETTLING (setTgtSettle 1 settled_1s)) = 1
      /\ tgtSettle (setRunMode SETTLING (setTgtSettle 1 settled_1s)) = 1
      /\ tick (setRunMode SETTLING (setTgtSettle 1 settled_1s)) = false
      /\ exists b3,
           beats [swing 2001000] (setRunMode SETTLING (setTgtSettle 1 settled_1s))
           = Done b3
           /\ runMode b3 = SCALING).
Proof.
  split.
  - split; [reflexivity |].
    split; eexists; (split; [vm_compute; reflexivity | reflexivity]).
  - repeat (split; [reflexivity |]).
    eexists; (split; [vm_compute; reflexivity | reflexivity]).
Qed.

(** At the top of the [int] range the counter wraps around instead of
    passing the target: with [tgtSettle] at 32767 the tock that finds the
    counter at 32767 leaves the mode at SETTLING. *)
Example settling_target_int_max :
  exists b',
    beat (swing 1001000)
      (set_tick false (set_cycleCounter 32767 (set_lastTime 1000 (setTgtSettle 32767 sketch))))
    = Done (1000000, b')
    /\ runMode b' = SETTLING /\ cycleCounter b' = -32768.
Proof.
  run_exists. split; reflexivity.
Qed.

(** ** The peak scaling factor *)

Lemma wait_zero_Done (rs rs' : list Z) (z : Z) :
  wait_zero rs = Done (z, rs') -> z <= 0 /\ incl rs' rs.
Proof.
  induction rs as [| r rs IH]; cbn; intros H; [discriminate |].
  destruct (r >? 0) eqn:E.
  - destruct (IH H) as [Hz Hi]. split; [exact Hz |].
    intros x Hx. right. apply Hi. exact Hx.
  - injection H as <- <-. rewrite Z.gtb_ltb in E. apply Z.ltb_ge in E.
    split; [exact E |]. intros x Hx. right. exact Hx.
Qed.

(** The value [wait_peak] ends with is one of the two it started from or a
    scaled reading. *)
Lemma wait_peak_origin (scale : Z) (rs : list Z) :
  forall c p v : Z,
    wait_peak scale rs c p = Done v ->
    v = p \/ v = c
    \/ exists r, In r rs /\ scale <> 0 /\ v = to_int (r ÷ scale).
Proof.
  induction rs as [| r rs IH]; intros c p v H; cbn in H.
  - destruct (c >=? p); [discriminate |]. injection H as <-. left. reflexivity.
  - destruct (c >=? p).
    + unfold div_int in H. destruct (scale =? 0) eqn:Es; [discriminate |].
      apply Z.eqb_neq in Es. cbn in H.
      destruct (IH _ _ _ H) as [-> | [-> | (x & Hx & _ & ->)]].
      * right. left. reflexivity.
      * right. right. exists r. split; [left; reflexivity | auto].
      * right. right. exists x. split; [right; exact Hx | auto].
    + injection H as <-. left. reflexivity.
Qed.

(** A reading scaled to more than 1 bounds the scaling factor. *)
Lemma peak_bounds_scale (r scale : Z) :
  in_int r -> scale <> 0 -> 1 < to_int (r ÷ scale) ->
  -16384 <= scale <= 16384.
Proof.
  unfold in_int. intros Hr Hs Hq.
  pose proof (Z.mul_quot_le (Z.abs r) (Z.abs scale) (Z.abs_nonneg r) ltac:(lia)) as Hm.
  rewrite Z.quot_abs in Hm by exact Hs.
  assert (Hq' : Z.abs (r ÷ scale) <= 32768) by nia.
  destruct (Z_le_gt_dec (r ÷ scale) 32767) as [Hle | Hgt].
  - rewrite to_int_id in Hq by (unfold in_int; lia). nia.
  - assert (E : r ÷ scale = 32768) by lia. rewrite E in Hq.
    vm_compute in Hq. discriminate.
Qed.

Lemma watch_peak_bounds_scale (scale : Z) (rs : list Z) (pastCoil : Z) :
  Forall in_int rs ->
  watch scale rs = Done pastCoil ->
  1 < pastCoil ->
  -16384 <= scale <= 16384.
Proof.
  intros Hrs Hw Hp. unfold watch in Hw. bind_inv Hw.
  destruct a as [z rs']. cbn in Hw.
  destruct (wait_zero_Done _ _ _ Ha) as [Hz Hincl].
  destruct (wait_peak_origin _ _ _ _ _ Hw) as [-> | [-> | (r & Hr & Hs & ->)]];
    try lia.
  apply (peak_bounds_scale r); try assumption.
  rewrite Forall_forall in Hrs. apply Hrs. apply Hincl. exact Hr.
Qed.

(** [setRunMode] enters the mode it is given. *)
Lemma setRunMode_code (m : RunMode) (b : Bendulum) :
  mode_code (runMode (setRunMode m b)) = mode_code m.
Proof. destruct m; reflexivity. Qed.

(** What one call of [beat] does to [peakScale], and that it moves the mode
    forward only. *)
Lemma beat_peakScale (p : Passage) (b : Bendulum) (r : Z * Bendulum) :
  Forall in_int (coil p) ->
  beat p b = Done r ->
  mode_code (runMode b) <= mode_code (runMode (snd r))
  /\ match runMode b with
     | SCALING =>
         exists pastCoil,
           watch (peakScale b) (coil p) = Done pastCoil
           /\ peakScale (snd r)
              = if negb (lastTime b =? 0) && (pastCoil >? maxPeak)
                then peakScale b + 1 else peakScale b
     | SETTLING =>
         (runMode (snd r) = SETTLING /\ peakScale (snd r) = peakScale b)
         \/ (runMode (snd r) = SCALING /\ peakScale (snd r) = 10)
     | _ => peakScale (snd r) = peakScale b
     end.
Proof.
  intros Hrs H. unfold beat in H. bind_inv H. rename a into pc.
  destruct (lastTime b =? 0) eqn:El.
  - injection H as <-. cbn. split; [lia |].
    destruct (runMode b) eqn:Em; auto. exists pc. auto.
  - bind_inv H. injection H as <-. cbn.
    destruct (runMode b) eqn:Em.
    + (* SETTLING *)
      cbn in Ha0. destruct (tick b); cbn in Ha0.
      * injection Ha0 as <-. cbn. rewrite Em. split; [cbn; lia | auto].
      * destruct (to_int (cycleCounter b + 1) >? tgtSettle b);
          injection Ha0 as <-; cbn; rewrite ?Em; split; cbn; auto; lia.
    + (* SCALING *)
      assert (Hps : (if pc >? maxPeak then to_int (peakScale b + 1) else peakScale b)
                    = (if pc >? maxPeak then peakScale b + 1 else peakScale b)).
      { destruct (pc >? maxPeak) eqn:Ep; [| reflexivity].
        apply Z.gtb_lt in Ep. unfold maxPeak in Ep.
        pose proof (watch_peak_bounds_scale _ _ _ Hrs Ha Ep).
        apply to_int_id. unfold in_int. lia. }
      assert (Hb : peakScale a = (if pc >? maxPeak then peakScale b + 1 else peakScale b)
                   /\ 1 <= mode_code (runMode a)).
      { rewrite <- Hps. cbn in Ha0.
        destruct (pc >? maxPeak); cbn in Ha0; destruct (tick b); cbn in Ha0;
          try (injection Ha0 as <-; cbn; rewrite ?Em; cbn; split; [reflexivity | lia]);
          destruct (to_int (cycleCounter b + 1) >? tgtScale b);
          injection Ha0 as <-; cbn; rewrite ?Em; cbn; split; (reflexivity || lia). }
      destruct Hb as [Hb1 Hb2]. split; [cbn; exact Hb2 |].
      exists pc. split; [exact Ha |]. cbn. exact Hb1.
    + (* CALIBRATING *)
      cbn in Ha0. unfold div_long in Ha0.
      destruct ((tickAvg b =? 0) && negb (tick b)); cbn in Ha0;
        repeat match type of Ha0 with
               | context [if ?c then _ else _] => destruct c; cbn in Ha0
               end;
        try discriminate; injection Ha0 as <-; cbn; rewrite ?Em; cbn;
        split; (reflexivity || lia).
    + injection Ha0 as <-. cbn. split; [lia | reflexivity].
    + injection Ha0 as <-. cbn. rewrite Em. split; [cbn; lia | reflexivity].
Qed.

Lemma mode_code_inj (m n : RunMode) : mode_code m = mode_code n -> m = n.
Proof. destruct m, n; cbn; intros H; (reflexivity || discriminate). Qed.

(** Over a run of beats. *)
Lemma beats_peakScale (ps : list Passage) :
  forall b b' : Bendulum,
    Forall (fun p => Forall in_int (coil p)) ps ->
    beats ps b = Done b' ->
    mode_code (runMode b) <= mode_code (runMode b')
    /\ (runMode b = SCALING -> runMode b' = SCALING ->
        peakScale b <= peakScale b' <= peakScale b + Z.of_nat (length ps))
    /\ (2 <= mode_code (runMode b) -> peakScale b' = peakScale b)
    /\ (runMode b = SETTLING -> runMode b' = SETTLING -> peakScale b' = peakScale b).
Proof.
  induction ps as [| p ps IH]; intros b b' Hps H; cbn [beats] in H.
  - injection H as <-. cbn [length Z.of_nat]. repeat split; intros; lia.
  - bind_inv H. inversion Hps as [| ? ? Hp Hps']; subst.
    destruct (beat_peakScale p b a Hp Ha) as [Hc1 Hone].
    destruct (IH _ _ Hps' H) as (Hc2 & Hsc & Hlate & Hset).
    change (Z.of_nat (length (p :: ps))) with (Z.of_nat (S (length ps))).
    rewrite Nat2Z.inj_succ.
    split; [lia |]. split; [| split].
    + intros Hm Hm'. rewrite Hm in Hone, Hc1. rewrite Hm' in Hc2. cbn in Hc1, Hc2.
      assert (Hma : runMode (snd a) = SCALING) by (apply mode_code_inj; cbn; lia).
      specialize (Hsc Hma Hm').
      destruct Hone as (pc & _ & E).
      destruct (negb (lastTime b =? 0) && (pc >? maxPeak)); lia.
    + intros Hm. rewrite Hlate by lia.
      destruct (runMode b); cbn in Hm; try lia; exact Hone.
    + intros Hm Hm'. rewrite Hm in Hone, Hc1. rewrite Hm' in Hc2. cbn in Hc1, Hc2.
      assert (Hma : runMode (snd a) = SETTLING) by (apply mode_code_inj; cbn; lia).
      rewrite (Hset Hma Hm').
      destruct Hone as [[_ E] | [E _]]; [exact E | congruence].
Qed.

(** C8, as the code has it.  Over every run of [beat] calls that begins and
    ends in SCALING mode [peakScale] does not decrease, and it grows by at
    most one a beat; a measured beat in SCALING mode increments it by one
    exactly when the scaled peak reading exceeds the ceiling of 1.  No run
    that begins in CALIBRATING, CALFINISH or RUNNING mode changes it, and
    none that begins and ends in SETTLING mode.  The one other change is the
    beat that completes settling: it enters SCALING, which resets
    [peakScale] to 10.  The readings are [int]s, as [analogRead] returns
    them. *)
Theorem peakScale_ratchet (ps : list Passage) (b b' : Bendulum) :
  Forall (fun p => Forall in_int (coil p)) ps ->
  beats ps b = Done b' ->
  (runMode b = SCALING -> runMode b' = SCALING ->
   peakScale b <= peakScale b' <= peakScale b + Z.of_nat (length ps))
  /\ (runMode b = CALIBRATING \/ runMode b = CALFINISH \/ runMode b = RUNNING ->
      peakScale b' = peakScale b)
  /\ (runMode b = SETTLING -> runMode b' = SETTLING -> peakScale b' = peakScale b)
  /\ (forall p r, Forall in_int (coil p) -> beat p b = Done r ->
      runMode b = SCALING -> lastTime b <> 0 ->
      exists pastCoil,
        watch (peakScale b) (coil p) = Done pastCoil
        /\ peakScale (snd r)
           = if pastCoil >? 1 then peakScale b + 1 else peakScale b)
  /\ (forall p r, Forall in_int (coil p) -> beat p b = Done r ->
      runMode b = SETTLING ->
      (runMode (snd r) = SETTLING /\ peakScale (snd r) = peakScale b)
      \/ (runMode (snd r) = SCALING /\ peakScale (snd r) = 10)).
Proof.
  intros Hps H.
  destruct (beats_peakScale ps b b' Hps H) as (_ & Hsc & Hlate & Hset).
  split; [exact Hsc |]. split; [| split; [exact Hset |]].
  - intros [Hm | [Hm | Hm]]; apply Hlate; rewrite Hm; cbn; lia.
  - split.
    + intros p r Hp Hr Hm Hl.
      destruct (beat_peakScale p b r Hp Hr) as [_ Hone]. rewrite Hm in Hone.
      destruct Hone as (pc & Hw & E). exists pc. split; [exact Hw |].
      rewrite E. rewrite (proj2 (Z.eqb_neq _ _) Hl). reflexivity.
    + intros p r Hp Hr Hm.
      destruct (beat_peakScale p b r Hp Hr) as [_ Hone]. rewrite Hm in Hone.
      exact Hone.
Qed.

Lemma peakScale_ratchet_witness :
  beats [strong_swing 1001000; strong_swing 2001000] scaling_start
  = Done scaling_after_2
  /\ peakScale scaling_start <= peakScale scaling_after_2
     <= peakScale scaling_start
        + Z.of_nat (length [strong_swing 1001000; strong_swing 2001000]).
Proof.
  assert (H : beats [strong_swing 1001000; strong_swing 2001000] scaling_start
              = Done scaling_after_2) by (vm_compute; reflexivity).
  split; [exact H |].
  apply (peakScale_ratchet [strong_swing 1001000; strong_swing 2001000]
           scaling_start scaling_after_2).
  - repeat constructor; unfold in_int; lia.
  - exact H.
  - reflexivity.
  - reflexivity.
Defined.

(** C8 as stated fails on the beat that completes settling.  With
    [peakScale] at 20 and in SETTLING mode, that beat leaves [peakScale] at
    10: a call of [beat] made in a mode other than SCALING has changed it,
    and downward.  And a scaled peak above 1 does not always increment it in
    SCALING mode: the first call of [beat], which finds no prior timestamp,
    returns before it would. *)
Lemma settling_end_resets_peakScale :
  (beats [swing 1000; swing 1001000] (setPeakScale 20 (setTgtSettle 1 sketch))
   = Done resettled
   /\ runMode resettled = SETTLING
   /\ peakScale resettled = 20
   /\ exists b',
        beat (swing 2001000) resettled = Done (1000000, b')
        /\ peakScale b' = 10
        /\ peakScale b' <> peakScale resettled
        /\ runMode b' = SCALING)
  /\ (runMode (setRunMode SCALING sketch) = SCALING
      /\ watch (peakScale (setRunMode SCALING sketch)) (coil (strong_swing 1000))
         = Done 40
      /\ exists b',
           beat (strong_swing 1000) (setRunMode SCALING sketch) = Done (0, b')
           /\ peakScale b' = peakScale (setRunMode SCALING sketch)).
Proof.
  split.
  - split; [vm_compute; reflexivity |].
    split; [reflexivity |]. split; [reflexivity |].
    run_exists. split; [reflexivity |]. split; [vm_compute; discriminate | reflexivity].
  - split; [reflexivity |]. split; [vm_compute; reflexivity |].
    run_exists. reflexivity.
Qed.

(** ** [incrBeatDuration] *)

(** The loop does not divide. *)
Lemma incr_loop_no_div (fuel : nat) (noOflow : Z) :
  forall incr u : Z, incr_loop fuel noOflow incr u <> DivByZero.
Proof.
  induction fuel as [| fuel IH]; intros incr u; cbn;
    destruct (incr >? noOflow); try discriminate. apply IH.
Qed.

(** With a positive step the loop ends within [incr] iterations. *)
Lemma incr_loop_returns (noOflow : Z) (fuel : nat) :
  1 <= noOflow ->
  forall incr u : Z,
    in_long incr -> incr <= Z.of_nat fuel ->
    exists r, incr_loop fuel noOflow incr u = Done r.
Proof.
  intros Hn. induction fuel as [| fuel IH]; intros incr u Hi Hf; cbn.
  - destruct (incr >? noOflow) eqn:E; [| eauto].
    apply Z.gtb_lt in E. cbn in Hf. lia.
  - destruct (incr >? noOflow) eqn:E; [| eauto].
    apply Z.gtb_lt in E. unfold in_long in Hi.
    assert (Hd : to_long (incr - noOflow) = incr - noOflow)
      by (apply to_long_id; unfold in_long; lia).
    apply IH; rewrite Hd; [unfold in_long |]; lia.
Qed.

(** [incr_products] lists what the loop multiplies: the step with the
    successive beat durations, and last the pair the loop ends with, which
    is the final product. *)
Lemma incr_loop_products (fuel : nat) (noOflow : Z) :
  forall (incr u : Z) (r : Z * Z),
    incr_loop fuel noOflow incr u = Done r ->
    exists l,
      incr_products fuel noOflow incr u = l ++ [r]
      /\ Forall (fun kx => fst kx = noOflow) l.
Proof.
  induction fuel as [| fuel IH]; intros incr u r H; cbn in *;
    destruct (incr >? noOflow); try discriminate.
  - injection H as <-. exists []. split; [reflexivity | constructor].
  - destruct (IH _ _ _ H) as (l & El & Hl).
    exists ((noOflow, u) :: l). rewrite El. split; [reflexivity |].
    constructor; [reflexivity | exact Hl].
  - injection H as <-. exists []. split; [reflexivity | constructor].
Qed.

(** The value returned is the new beat duration, and both averages are set
    to it. *)
Lemma incrBeatDuration_sets_averages
  (fuel : nat) (incr : Z) (b : Bendulum) (r : Z * Bendulum) :
  incrBeatDuration fuel incr b = Done r ->
  fst r = uspb (snd r) /\ tickAvg (snd r) = fst r /\ tockAvg (snd r) = fst r.
Proof.
  unfold incrBeatDuration. intros H. bind_inv H. bind_inv H.
  injection H as <-. cbn. auto.
Qed.

(** X11.  An adjustment between 0 and [2,000,000,000 / uspb] is made in
    one step whose products fit a [long]: the new beat duration is the
    rounded correction of the old one, over the integers. *)
Lemma incrBeatDuration_single_step (fuel : nat) (incr : Z) (b : Bendulum) :
  0 < uspb b <= 2000000000 ->
  0 <= incr <= 2000000000 ÷ uspb b ->
  corr_fits incr (uspb b)
  /\ exists b',
       incrBeatDuration fuel incr b = Done (corrected_spec (uspb b) incr, b')
       /\ uspb b' = corrected_spec (uspb b) incr.
Proof.
  intros Hu Hi.
  pose proof (Z.mul_quot_le 2000000000 (uspb b) ltac:(lia) ltac:(lia)) as Hq.
  assert (Hn : 0 <= 2000000000 ÷ uspb b <= 2000000000).
  { split; [apply Z.quot_pos; lia |].
    apply Z.quot_le_upper_bound; [lia |]. nia. }
  assert (Hprod : 0 <= incr * uspb b <= 2000000000) by nia.
  assert (Hfit : corr_fits incr (uspb b)) by (unfold corr_fits, in_long; lia).
  split; [exact Hfit |].
  unfold incrBeatDuration, div_long.
  rewrite (proj2 (Z.eqb_neq _ _)) by lia. cbn [bind].
  rewrite (to_long_id (2000000000 ÷ uspb b)) by (unfold in_long; lia).
  assert (Hloop : incr_loop fuel (2000000000 ÷ uspb b) incr (uspb b)
                  = Done (incr, uspb b)).
  { assert (Hg : (incr >? 2000000000 ÷ uspb b) = false)
      by (rewrite Z.gtb_ltb; apply Z.ltb_ge; lia).
    destruct fuel; cbn; rewrite Hg; reflexivity. }
  rewrite Hloop. cbn [bind fst snd].
  assert (Hc : clock_corr incr (uspb b) = corrected_spec (uspb b) incr).
  { apply clock_corr_exact; [unfold in_long; lia | exact Hfit |].
    unfold corrected_spec, in_long.
    pose proof (quot_864000_abs (incr * uspb b + 432000)). lia. }
  rewrite Hc. eexists. split; [reflexivity |]. reflexivity.
Qed.

(** C9.  [incrBeatDuration] does not keep its products within the [long]
    range for every adjustment.  At a beat duration of one second the step
    is 2000.  An adjustment of -3000 is not stepped at all: its one product,
    [-3000 * 1000000], is out of range, and the call returns 1,001,499 where
    the rounded correction over the integers is 996,529.  An adjustment of
    70000 is stepped by 2000, a step computed once from the first beat
    duration; the beat duration grows with each step, and the 32nd product,
    [2000 * 1074308], is out of range. *)
Theorem incrBeatDuration_products_overflow :
  div_long 2000000000 (uspb one_second) = Done 2000
  /\ incr_products 0 2000 (-3000) (uspb one_second) = [(-3000, 1000000)]
  /\ ~ in_long (-3000 * 1000000)
  /\ (exists b', incrBeatDuration 0 (-3000) one_second = Done (1001499, b'))
  /\ corrected_spec 1000000 (-3000) = 996529
  /\ nth 31 (incr_products 35 2000 70000 (uspb one_second)) (0, 0) = (2000, 1074308)
  /\ ~ in_long (2000 * 1074308)
  /\ (exists b', incrBeatDuration 35 70000 one_second = Done (1074304, b')).
Proof.
  split; [vm_compute; reflexivity |].
  split; [vm_compute; reflexivity |].
  split; [unfold in_long; lia |].
  split; [eexists; vm_compute; reflexivity |].
  split; [vm_compute; reflexivity |].
  split; [vm_compute; reflexivity |].
  split; [unfold in_long; lia |].
  eexists; vm_compute; reflexivity.
Qed.

(** C10, as the code has it.  [incrBeatDuration] divides by the beat
    duration unguarded: the call ends in a division by zero exactly when
    [uspb] is 0, whatever the adjustment.  The constructor does not assign
    [uspb], which stays as the object's storage has it: on a fresh object
    the call divides by zero exactly when the storage held 0 there.  It does
    on a global object, whose storage is zeroed; there the call divides by
    zero before any beat, the first call of [beat] measures nothing and does
    not change that, and [setBeatDuration] with a nonzero duration does.
    With [0 < uspb <= 2,000,000,000] the call returns. *)
Theorem incrBeatDuration_divides_by_uspb
  (fuel : nat) (incr : Z) (b : Bendulum) (sPin kPin : Z) :
  (incrBeatDuration fuel incr b = DivByZero <-> uspb b = 0)
  /\ (forall mem, uspb (Bendulum_init mem sPin kPin) = uspb mem)
  /\ (forall mem,
        incrBeatDuration fuel incr (Bendulum_init mem sPin kPin) = DivByZero
        <-> uspb mem = 0)
  /\ incrBeatDuration fuel incr (Bendulum_static sPin kPin) = DivByZero
  /\ (forall p r, beat p (Bendulum_static sPin kPin) = Done r ->
      incrBeatDuration fuel incr (snd r) = DivByZero)
  /\ (forall beatDur, beatDur <> 0 ->
      incrBeatDuration fuel incr (setBeatDuration beatDur (Bendulum_static sPin kPin))
      <> DivByZero)
  /\ (in_long incr -> 0 < uspb b <= 2000000000 ->
      exists r, incrBeatDuration (Z.to_nat incr) incr b = Done r).
Proof.
  assert (Hiff : forall f i x, incrBeatDuration f i x = DivByZero <-> uspb x = 0).
  { intros f i x. unfold incrBeatDuration, div_long.
    destruct (uspb x =? 0) eqn:E.
    - apply Z.eqb_eq in E. cbn. split; auto.
    - apply Z.eqb_neq in E. cbn [bind]. split; [| contradiction].
      destruct (incr_loop f (to_long (2000000000 ÷ uspb x)) i (uspb x)) eqn:El;
        cbn; try discriminate.
      intros _. exact (False_ind _ (incr_loop_no_div _ _ _ _ El)). }
  split; [apply Hiff |]. split; [reflexivity |].
  split; [intros mem; exact (Hiff fuel incr (Bendulum_init mem sPin kPin)) |].
  split; [apply Hiff; reflexivity |]. split; [| split].
  - intros p r H. apply Hiff.
    unfold beat in H. bind_inv H. cbn in H. injection H as <-. reflexivity.
  - intros d Hd H. apply Hiff in H. cbn in H. contradiction.
  - intros Hi Hu. unfold incrBeatDuration, div_long.
    rewrite (proj2 (Z.eqb_neq _ _)) by lia. cbn [bind].
    pose proof (Z.mul_quot_le 2000000000 (uspb b) ltac:(lia) ltac:(lia)) as Hq.
    assert (Hn : 1 <= 2000000000 ÷ uspb b <= 2000000000).
    { split.
      - apply Z.quot_le_lower_bound; lia.
      - apply Z.quot_le_upper_bound; [lia |]. nia. }
    rewrite (to_long_id (2000000000 ÷ uspb b)) by (unfold in_long; lia).
    destruct (incr_loop_returns (2000000000 ÷ uspb b) (Z.to_nat incr)
                ltac:(lia) incr (uspb b) Hi ltac:(lia)) as [r Hr].
    rewrite Hr. cbn [bind]. eauto.
Qed.

(** C10 as stated fails on an object whose storage is not zeroed (one on
    the stack or on the heap).  Constructed where the storage held 1,000,000
    at [uspb], and with no beat measured and [setBeatDuration] not used, the
    object has a nonzero beat duration, and [incrBeatDuration(5)] returns
    1,000,006 without dividing by zero. *)
Lemma fresh_object_keeps_storage_uspb :
  uspb (Bendulum_init (set_uspb 1000000 static_storage) 16 12) = 1000000
  /\ lastTime (Bendulum_init (set_uspb 1000000 static_storage) 16 12) = 0
  /\ (exists b',
        incrBeatDuration 0 5 (Bendulum_init (set_uspb 1000000 static_storage) 16 12)
        = Done (1000006, b'))
  /\ incrBeatDuration 0 5 (Bendulum_init (set_uspb 1000000 static_storage) 16 12)
     <> DivByZero.
Proof.
  split; [reflexivity |]. split; [reflexivity |].
  split; [eexists; vm_compute; reflexivity | vm_compute; discriminate].
Qed.

(** * Further properties *)

(** ** What every call of [beat] keeps *)

(** Reduce the projections of a state built by the setters. *)
Ltac fields :=
  cbn [fst snd sensePin kickPin cycleCounter tgtSettle tgtScale tgtSmoothing
       curSmoothing uspb bias peakScale tick tickAvg tockAvg tickPeriod
       tockPeriod lastTime timeBeforeLast runMode
       set_cycleCounter set_tgtSettle set_tgtSmoothing set_curSmoothing
       set_uspb set_bias set_peakScale set_tick set_tickAvg set_tockAvg
       set_tickPeriod set_tockPeriod set_lastTime set_timeBeforeLast
       set_runMode setRunMode mode_code] in *.

(** From [H : beat p b = Done r]: every way the call can have gone, with
    [r] replaced by what that way returns. *)
Ltac beat_inv H :=
  unfold beat in H; bind_inv H;
  match type of H with
  | context [lastTime ?b =? 0] =>
      let El := fresh "El" in
      destruct (lastTime b =? 0) eqn:El;
      [ injection H as <-
      | let Em := fresh "Em" in
        bind_inv H; injection H as <-;
        match goal with
        | Hs : match runMode b with _ => _ end = Done _ |- _ =>
            destruct (runMode b) eqn:Em; cbn [bind] in Hs; unfold div_long in Hs;
            repeat match type of Hs with
                   | context [if ?c then _ else _] =>
                       let E := fresh "E" in destruct c eqn:E; cbn [bind] in Hs
                   end;
            try discriminate; injection Hs as <-
        end ]
  end.

(** One call moves the mode forward by at most one step. *)
Lemma beat_mode_step (p : Passage) (b : Bendulum) (r : Z * Bendulum) :
  beat p b = Done r ->
  mode_code (runMode (snd r)) = mode_code (runMode b)
  \/ mode_code (runMode (snd r)) = mode_code (runMode b) + 1.
Proof.
  intros H. beat_inv H; fields; rewrite ?Em; fields; auto.
Qed.

(** X1.  Over every run of [beat] calls the mode moves only forward through
    SETTLING, SCALING, CALIBRATING, CALFINISH, RUNNING, by at most one step
    a call; a run that begins in RUNNING mode ends in RUNNING mode. *)
Theorem beats_mode_forward (ps : list Passage) (b b' : Bendulum) :
  beats ps b = Done b' ->
  mode_code (runMode b) <= mode_code (runMode b')
                        <= mode_code (runMode b) + Z.of_nat (length ps)
  /\ (runMode b = RUNNING -> runMode b' = RUNNING).
Proof.
  revert b. induction ps as [| p ps IH]; intros b H; cbn [beats] in H.
  - injection H as <-. cbn [length Z.of_nat]. split; [lia | auto].
  - bind_inv H. specialize (IH _ H).
    pose proof (beat_mode_step _ _ _ Ha) as Hs.
    change (Z.of_nat (length (p :: ps))) with (Z.of_nat (S (length ps))).
    rewrite Nat2Z.inj_succ. split; [lia |].
    intros Hm. rewrite Hm in *. cbn [mode_code] in *.
    apply mode_code_inj. cbn [mode_code].
    assert (mode_code (runMode b') <= 4) by (destruct (runMode b'); cbn; lia).
    lia.
Qed.

(** The configuration is untouched by one call. *)
Lemma beat_keeps_configuration (p : Passage) (b : Bendulum) (r : Z * Bendulum) :
  beat p b = Done r ->
  bias (snd r) = bias b
  /\ tgtSettle (snd r) = tgtSettle b
  /\ tgtScale (snd r) = tgtScale b
  /\ tgtSmoothing (snd r) = tgtSmoothing b
  /\ sensePin (snd r) = sensePin b
  /\ kickPin (snd r) = kickPin b.
Proof.
  intros H. beat_inv H; fields; repeat split; reflexivity.
Qed.

(** X2.  No run of [beat] calls, in whatever modes, changes the clock bias,
    the three targets or the two pins. *)
Theorem beats_keep_configuration (ps : list Passage) (b b' : Bendulum) :
  beats ps b = Done b' ->
  bias b' = bias b
  /\ tgtSettle b' = tgtSettle b
  /\ tgtScale b' = tgtScale b
  /\ tgtSmoothing b' = tgtSmoothing b
  /\ sensePin b' = sensePin b
  /\ kickPin b' = kickPin b.
Proof.
  revert b. induction ps as [| p ps IH]; intros b H; cbn [beats] in H.
  - injection H as <-. repeat split; reflexivity.
  - bind_inv H.
    destruct (beat_keeps_configuration _ _ _ Ha) as (A1 & A2 & A3 & A4 & A5 & A6).
    destruct (IH _ H) as (B1 & B2 & B3 & B4 & B5 & B6).
    repeat split; congruence.
Qed.

Lemma beats_mode_forward_witness :
  beats [swing 1000; swing 1001000] sketch = Done settled_1s
  /\ mode_code (runMode sketch) <= mode_code (runMode settled_1s)
     <= mode_code (runMode sketch) + Z.of_nat (length [swing 1000; swing 1001000]).
Proof.
  assert (H : beats [swing 1000; swing 1001000] sketch = Done settled_1s)
    by (vm_compute; reflexivity).
  split; [exact H |].
  exact (proj1 (beats_mode_forward _ _ _ H)).
Defined.

Lemma beats_keep_configuration_witness :
  beats [swing 1000; swing 1001000] (setBias 25 sketch)
  = Done (set_tickPeriod 1000029 (set_uspb 1000029 (setBias 25 settled_1s)))
  /\ bias (set_tickPeriod 1000029 (set_uspb 1000029 (setBias 25 settled_1s)))
     = bias (setBias 25 sketch).
Proof.
  assert (H : beats [swing 1000; swing 1001000] (setBias 25 sketch)
              = Done (set_tickPeriod 1000029 (set_uspb 1000029 (setBias 25 settled_1s))))
    by (vm_compute; reflexivity).
  split; [exact H |].
  exact (proj1 (beats_keep_configuration _ _ _ H)).
Defined.

(** ** Scaling *)

(** One measured beat in SCALING mode. *)
Lemma beat_scaling_step (p : Passage) (b : Bendulum) (r : Z * Bendulum) :
  runMode b = SCALING ->
  lastTime b <> 0 ->
  beat p b = Done r ->
  tick (snd r) = negb (tick b)
  /\ lastTime (snd r) = to_ulong (micros p)
  /\ tgtScale (snd r) = tgtScale b
  /\ (tick b = true ->
      runMode (snd r) = SCALING /\ cycleCounter (snd r) = cycleCounter b)
  /\ (tick b = false -> to_int (cycleCounter b + 1) <= tgtScale b ->
      runMode (snd r) = SCALING
      /\ cycleCounter (snd r) = to_int (cycleCounter b + 1))
  /\ (tick b = false -> tgtScale b < to_int (cycleCounter b + 1) ->
      runMode (snd r) = CALIBRATING
      /\ curSmoothing (snd r) = 1
      /\ tickAvg (snd r) = 0
      /\ tockAvg (snd r) = 0).
Proof.
  intros Hm Hl H. apply Z.eqb_neq in Hl.
  beat_inv H; try congruence; fields;
    repeat match goal with
           | E : (_ >? _) = true |- _ => apply Z.gtb_lt in E
           | E : (_ >? _) = false |- _ =>
               rewrite Z.gtb_ltb in E; apply Z.ltb_ge in E
           end;
    rewrite ?Em;
    repeat split; auto; intros; try congruence; try lia.
Qed.

Lemma scaling_run (ps : list Passage) :
  forall b b' : Bendulum,
    runMode b = SCALING ->
    lastTime b <> 0 ->
    1 <= cycleCounter b <= tgtScale b ->
    tgtScale b <= 32766 ->
    Forall (fun p => to_ulong (micros p) <> 0) ps ->
    Z.of_nat (length ps) <= scale_left b ->
    beats ps b = Done b' ->
    (Z.of_nat (length ps) < scale_left b ->
     runMode b' = SCALING
     /\ scale_left b' = scale_left b - Z.of_nat (length ps)
     /\ tgtScale b' = tgtScale b)
    /\ (Z.of_nat (length ps) = scale_left b ->
        runMode b' = CALIBRATING
        /\ curSmoothing b' = 1 /\ tickAvg b' = 0 /\ tockAvg b' = 0
        /\ tick b' = true).
Proof.
  induction ps as [| p ps IH]; intros b b' Hm Hl Hc HN Hps Hlen H; cbn [beats] in H.
  - injection H as <-. cbn [length Z.of_nat] in *. split.
    + intros _. repeat split; try assumption; lia.
    + intros E. unfold scale_left in E. destruct (tick b); lia.
  - bind_inv H. inversion Hps as [| ? ? Hp Hps']; subst.
    destruct (beat_scaling_step p b a Hm Hl Ha)
      as (Htick & Hl1 & Htgt & Htk & Htock & Hend).
    assert (Hint : to_int (cycleCounter b + 1) = cycleCounter b + 1)
      by (apply to_int_id; unfold in_int; lia).
    rewrite Hint in *.
    change (Z.of_nat (length (p :: ps))) with (Z.of_nat (S (length ps))) in *.
    rewrite Nat2Z.inj_succ in *.
    assert (Hl1' : lastTime (snd a) <> 0) by (rewrite Hl1; exact Hp).
    destruct (tick b) eqn:Etick.
    + destruct (Htk eq_refl) as (Hm1 & Hc1).
      assert (Hleft : scale_left (snd a) = scale_left b - 1).
      { unfold scale_left. rewrite Htgt, Hc1, Htick, Etick. cbn [negb]. lia. }
      destruct (IH (snd a) b') as (Hlt & Heq);
        try assumption; try (rewrite ?Htgt, ?Hc1; assumption || lia).
      split.
      * intros H1. destruct Hlt as (A & B & C); [lia |].
        repeat split; try assumption; try congruence; lia.
      * intros H1. apply Heq. lia.
    + destruct (Z_le_gt_dec (cycleCounter b + 1) (tgtScale b)) as [Hle | Hgt].
      * destruct (Htock eq_refl Hle) as (Hm1 & Hc1).
        assert (Hleft : scale_left (snd a) = scale_left b - 1).
        { unfold scale_left. rewrite Htgt, Hc1, Htick, Etick. cbn [negb]. lia. }
        destruct (IH (snd a) b') as (Hlt & Heq);
          try assumption; try (rewrite ?Htgt, ?Hc1; assumption || lia).
        split.
        -- intros H1. destruct Hlt as (A & B & C); [lia |].
           repeat split; try assumption; try congruence; lia.
        -- intros H1. apply Heq. lia.
      * destruct (Hend eq_refl ltac:(lia)) as (Hm1 & Hc1 & Ha1 & Ho1).
        assert (Hone : scale_left b = 1) by (unfold scale_left; rewrite Etick; lia).
        destruct ps as [| q ps]; [| cbn [length] in Hlen; lia].
        cbn [beats] in H. injection H as <-.
        cbn [length Z.of_nat]. split; [lia |]. intros _.
        rewrite Htick. cbn [negb]. auto.
Qed.

(** X3.  Take a state in SCALING mode with the cycle counter at 1, on a
    tick, with a prior timestamp recorded, and [tgtScale = N] with
    [1 <= N <= 32766].  Of a run of calls of [beat] that have returned, at
    clock times other than 0: after [k < 2 * N] of them the mode is SCALING
    and [getCycleCounter] reads [1 + k / 2]; the call number [2 * N] leaves
    the engine in CALIBRATING mode, on a tick, with the smoothing counter at
    1 and both averages at 0. *)
Theorem scaling_lasts_N_cycles (N : Z) (ps : list Passage) (b b' : Bendulum) :
  1 <= N <= 32766 ->
  runMode b = SCALING ->
  cycleCounter b = 1 ->
  tick b = true ->
  lastTime b <> 0 ->
  tgtScale b = N ->
  Forall (fun p => to_ulong (micros p) <> 0) ps ->
  Z.of_nat (length ps) <= 2 * N ->
  beats ps b = Done b' ->
  (Z.of_nat (length ps) < 2 * N ->
   runMode b' = SCALING /\ getCycleCounter b' = 1 + Z.of_nat (length ps) / 2)
  /\ (Z.of_nat (length ps) = 2 * N ->
      runMode b' = CALIBRATING
      /\ getCycleCounter b' = 1
      /\ tickAvg b' = 0 /\ tockAvg b' = 0 /\ tick b' = true).
Proof.
  intros HN Hm Hc Ht Hl Htgt Hps Hlen H.
  assert (Hleft : scale_left b = 2 * N)
    by (unfold scale_left; rewrite Htgt, Hc, Ht; lia).
  destruct (scaling_run ps b b') as (Hlt & Heq); try assumption; try lia.
  split.
  - intros H1. destruct Hlt as (A & B & C); [lia |].
    split; [exact A |]. unfold getCycleCounter. rewrite A. cbv beta iota.
    rewrite Hleft in B. unfold scale_left in B. rewrite C, Htgt in B.
    destruct (tick b'); Z.div_mod_to_equations; lia.
  - intros H1. destruct Heq as (A & B & C & D & E); [lia |].
    split; [exact A |]. unfold getCycleCounter. rewrite A. auto.
Qed.

Lemma scaling_lasts_N_cycles_witness :
  beats [strong_swing 1001000; strong_swing 2001000] scaling_start
  = Done scaling_after_2
  /\ runMode scaling_after_2 = SCALING
  /\ getCycleCounter scaling_after_2
     = 1 + Z.of_nat (length [strong_swing 1001000; strong_swing 2001000]) / 2.
Proof.
  assert (H : beats [strong_swing 1001000; strong_swing 2001000] scaling_start
              = Done scaling_after_2) by (vm_compute; reflexivity).
  split; [exact H |].
  apply (scaling_lasts_N_cycles 128
           [strong_swing 1001000; strong_swing 2001000] scaling_start scaling_after_2).
  - lia.
  - reflexivity.
  - reflexivity.
  - reflexivity.
  - cbn. lia.
  - reflexivity.
  - repeat constructor; vm_compute; discriminate.
  - cbn. lia.
  - exact H.
  - cbn. lia.
Defined.

(** ** The length of a calibration *)

(** A positive average and a positive sample give a positive average. *)
Lemma smooth_positive (avg sample n : Z) :
  0 < avg <= 2147483647 -> 0 < sample <= 2147483647 -> 1 <= n ->
  0 < smooth avg sample n <= 2147483647.
Proof.
  intros Ha Hs Hn.
  rewrite smooth_exact by (unfold in_long; lia).
  destruct (quot_toward_zero (sample - avg) n Hn) as [Hp Hm].
  destruct (Z_le_gt_dec 0 (sample - avg)) as [L | G];
    [specialize (Hp L) | specialize (Hm ltac:(lia))]; lia.
Qed.

(** The first sample is the first average. *)
Lemma smooth_first (sample : Z) :
  in_long sample -> smooth 0 sample 1 = sample.
Proof.
  intros Hs. rewrite smooth_exact by (unfold in_long in *; lia).
  rewrite Z.sub_0_r, Z.quot_1_r. lia.
Qed.

(** One measured beat in CALIBRATING mode, as the run below needs it. *)
Lemma beat_calibrating_cases (p : Passage) (b : Bendulum) :
  runMode b = CALIBRATING ->
  lastTime b <> 0 ->
  curSmoothing b <> 0 ->
  seen (peakScale b) p ->
  exists r,
    beat p b = Done r
    /\ lastTime (snd r) = to_ulong (micros p)
    /\ peakScale (snd r) = peakScale b
    /\ bias (snd r) = bias b
    /\ tgtSmoothing (snd r) = tgtSmoothing b
    /\ (tick b = true \/ tickAvg b = 0 ->
        runMode (snd r) = CALIBRATING
        /\ curSmoothing (snd r) = curSmoothing b
        /\ tick (snd r) = false
        /\ tickAvg (snd r)
           = smooth (tickAvg b)
               (clock_corr (bias b) (elapsed (to_ulong (micros p)) (lastTime b)))
               (curSmoothing b)
        /\ tockAvg (snd r) = tockAvg b)
    /\ (tick b = false /\ tickAvg b <> 0 ->
        tickAvg (snd r) = tickAvg b
        /\ tick (snd r) = true
        /\ curSmoothing (snd r) = to_int (curSmoothing b + 1)
        /\ runMode (snd r)
           = (if to_int (curSmoothing b + 1) >? tgtSmoothing b
              then CALFINISH else CALIBRATING)
        /\ tockAvg (snd r)
           = smooth (tockAvg b)
               (clock_corr (bias b) (elapsed (to_ulong (micros p)) (lastTime b)))
               (curSmoothing b)).
Proof.
  intros Hm Hl Hn [_ [pc Hw]].
  assert (Hn' : (curSmoothing b =? 0) = false) by (apply Z.eqb_neq; exact Hn).
  enter_beat Hw Hl. rewrite Hm.
  destruct (tick b) eqn:Ht.
  - rewrite andb_false_r. cbn. rewrite Ht. unfold div_long. cbn. rewrite Hn'. cbn.
    destruct (tockAvg b =? 0);
      (eexists; split; [reflexivity |]); fields; unfold smooth; rewrite ?Hm, ?Ht;
      repeat match goal with |- _ /\ _ => split end; auto;
      intros [E _]; discriminate.
  - destruct (tickAvg b =? 0) eqn:Ea.
    + apply Z.eqb_eq in Ea.
      cbn. unfold div_long. cbn. rewrite Hn'. cbn.
      destruct (tockAvg b =? 0);
        (eexists; split; [reflexivity |]); fields; unfold smooth; rewrite ?Hm;
        repeat match goal with |- _ /\ _ => split end; auto;
        intros [_ E]; contradiction.
    + apply Z.eqb_neq in Ea.
      cbn. rewrite Ht. unfold div_long. cbn. rewrite Hn'. cbn.
      destruct (to_int (curSmoothing b + 1) >? tgtSmoothing b) eqn:Eg; cbn;
        match goal with
        | |- context [if ?c =? 0 then _ else _] => destruct (c =? 0)
        end;
        (eexists; split; [reflexivity |]); fields; unfold smooth; rewrite ?Hm, ?Ht;
        repeat match goal with |- _ /\ _ => split end; auto;
        intros [E | E]; (discriminate || contradiction).
Qed.

Lemma calibrating_run (ps : list Passage) :
  forall b : Bendulum,
    runMode b = CALIBRATING ->
    lastTime b <> 0 ->
    1 <= curSmoothing b <= tgtSmoothing b ->
    tgtSmoothing b <= 32766 ->
    0 < tickAvg b <= 2147483647
    \/ (tickAvg b = 0 /\ curSmoothing b = 1 /\ tick b = true) ->
    steady (peakScale b) (bias b) (lastTime b) ps ->
    Z.of_nat (length ps) <= calib_left b ->
    exists b',
      beats ps b = Done b'
      /\ (Z.of_nat (length ps) < calib_left b ->
          runMode b' = CALIBRATING
          /\ calib_left b' = calib_left b - Z.of_nat (length ps)
          /\ tgtSmoothing b' = tgtSmoothing b)
      /\ (Z.of_nat (length ps) = calib_left b ->
          runMode b' = CALFINISH /\ 0 < tickAvg b').
Proof.
  induction ps as [| p ps IH]; intros b Hm Hl Hc HM Havg Hps Hlen.
  - exists b. cbn [length Z.of_nat] in *. split; [reflexivity |]. split.
    + intros _. repeat split; try assumption; lia.
    + intros E. unfold calib_left in E. destruct (tick b); lia.
  - destruct Hps as (Hseen & Hpos & Hps).
    destruct (beat_calibrating_cases p b Hm Hl ltac:(lia) Hseen)
      as (r & Hr & Hl1 & Hps1 & Hb1 & Htgt & Htk & Htock).
    cbn [beats]. rewrite Hr. cbn [bind].
    assert (Hint : to_int (curSmoothing b + 1) = curSmoothing b + 1)
      by (apply to_int_id; unfold in_int; lia).
    rewrite Hint in *.
    change (Z.of_nat (length (p :: ps))) with (Z.of_nat (S (length ps))) in *.
    rewrite Nat2Z.inj_succ in *.
    assert (Hl1' : lastTime (snd r) <> 0) by (rewrite Hl1; apply Hseen).
    set (sample := clock_corr (bias b) (elapsed (to_ulong (micros p)) (lastTime b))) in *.
    assert (Hs : 0 < sample <= 2147483647).
    { split; [exact Hpos |]. pose proof (to_long_range
        (elapsed (to_ulong (micros p)) (lastTime b)
         + to_long (to_long (bias b * elapsed (to_ulong (micros p)) (lastTime b)) + 432000)
           ÷ 864000)) as R.
      unfold in_long in R. unfold sample, clock_corr. lia. }
    destruct (tick b) eqn:Etick.
    + (* a tick *)
      destruct (Htk (or_introl eq_refl)) as (Hm1 & Hc1 & Ht1 & Ha1 & _).
      assert (Hpos1 : 0 < tickAvg (snd r) <= 2147483647).
      { rewrite Ha1. destruct Havg as [Hp | (Hz & Hone & _)].
        - apply smooth_positive; [exact Hp | exact Hs | lia].
        - rewrite Hz, Hone, smooth_first by (unfold in_long; lia). exact Hs. }
      assert (Hleft : calib_left (snd r) = calib_left b - 1).
      { unfold calib_left. rewrite Htgt, Hc1, Ht1, Etick. lia. }
      assert (Hst : steady (peakScale (snd r)) (bias (snd r)) (lastTime (snd r)) ps)
        by (rewrite Hps1, Hb1, Hl1; exact Hps).
      destruct (IH (snd r) Hm1 Hl1' ltac:(rewrite Htgt, Hc1; lia)
                  ltac:(rewrite Htgt; lia) (or_introl Hpos1) Hst ltac:(lia))
        as (b' & Hb' & Hlt & Heq).
      exists b'. split; [exact Hb' |]. split.
      * intros H. destruct Hlt as (A & B & C); [lia |].
        repeat split; try assumption; try congruence; lia.
      * intros H. apply Heq. lia.
    + (* a tock: the average of ticks is past zero *)
      assert (Hp : 0 < tickAvg b <= 2147483647)
        by (destruct Havg as [Hp | (_ & _ & E)]; [exact Hp | discriminate]).
      assert (Hnz : tickAvg b <> 0) by lia.
      destruct (Htock (conj eq_refl Hnz)) as (Ha1 & Ht1 & Hc1 & Hm1 & _).
      destruct (Z_le_gt_dec (curSmoothing b + 1) (tgtSmoothing b)) as [Hle | Hgt].
      * assert (Eg : (curSmoothing b + 1 >? tgtSmoothing b) = false)
          by (rewrite Z.gtb_ltb; apply Z.ltb_ge; exact Hle).
        rewrite Eg in Hm1.
        assert (Hleft : calib_left (snd r) = calib_left b - 1).
        { unfold calib_left. rewrite Htgt, Hc1, Ht1, Etick. lia. }
        assert (Hst : steady (peakScale (snd r)) (bias (snd r)) (lastTime (snd r)) ps)
          by (rewrite Hps1, Hb1, Hl1; exact Hps).
        assert (Hpos1 : 0 < tickAvg (snd r) <= 2147483647)
          by (rewrite Ha1; exact Hp).
        destruct (IH (snd r) Hm1 Hl1' ltac:(rewrite Htgt, Hc1; lia)
                    ltac:(rewrite Htgt; lia) (or_introl Hpos1) Hst ltac:(lia))
          as (b' & Hb' & Hlt & Heq).
        exists b'. split; [exact Hb' |]. split.
        -- intros H. destruct Hlt as (A & B & C); [lia |].
           repeat split; try assumption; try congruence; lia.
        -- intros H. apply Heq. lia.
      * assert (Eg : (curSmoothing b + 1 >? tgtSmoothing b) = true)
          by (apply Z.gtb_lt; lia).
        rewrite Eg in Hm1.
        assert (Hone : calib_left b = 1) by (unfold calib_left; rewrite Etick; lia).
        destruct ps as [| q ps]; [| cbn [length] in Hlen; lia].
        exists (snd r). cbn [beats]. split; [reflexivity |].
        cbn [length Z.of_nat]. split; [lia |]. intros _.
        split; [exact Hm1 | rewrite Ha1; lia].
Qed.

(** X4.  Send the engine into calibration on a tick (smoothing counter 1,
    [tickAvg] 0, a prior timestamp recorded) with [tgtSmoothing = M],
    [1 <= M <= 32766], and let every passage come at a positive corrected
    interval after the one before.  Then calibration takes exactly [M]
    cycles: after [k < 2 * M] measured beats the mode is CALIBRATING and
    [getCycleCounter] reads [1 + k / 2], and the beat number [2 * M] leaves
    the engine in CALFINISH mode.  No call divides by zero. *)
Theorem calibrating_lasts_M_cycles (M : Z) (ps : list Passage) (b : Bendulum) :
  1 <= M <= 32766 ->
  runMode b = CALIBRATING ->
  curSmoothing b = 1 ->
  tick b = true ->
  tickAvg b = 0 ->
  lastTime b <> 0 ->
  tgtSmoothing b = M ->
  steady (peakScale b) (bias b) (lastTime b) ps ->
  Z.of_nat (length ps) <= 2 * M ->
  exists b',
    beats ps b = Done b'
    /\ (Z.of_nat (length ps) < 2 * M ->
        runMode b' = CALIBRATING
        /\ getCycleCounter b' = 1 + Z.of_nat (length ps) / 2)
    /\ (Z.of_nat (length ps) = 2 * M -> runMode b' = CALFINISH).
Proof.
  intros HM Hm Hc Ht Ha Hl Htgt Hps Hlen.
  assert (Hleft : calib_left b = 2 * M)
    by (unfold calib_left; rewrite Htgt, Hc, Ht; lia).
  destruct (calibrating_run ps b) as (b' & Hb' & Hlt & Heq);
    try assumption; try lia.
  { right. auto. }
  exists b'. split; [exact Hb' |]. split.
  - intros H. destruct Hlt as (A & B & C); [lia |].
    split; [exact A |]. unfold getCycleCounter. rewrite A. cbv beta iota.
    rewrite Hleft in B. unfold calib_left in B. rewrite C, Htgt in B.
    destruct (tick b'); Z.div_mod_to_equations; lia.
  - intros H. destruct Heq as (A & _); [lia |]. exact A.
Qed.

Lemma calibrating_lasts_M_cycles_witness :
  exists b',
    beats [swing 1001000; swing 2001000; swing 3001000; swing 4001000]
      (setTgtSmoothing 2 calib_start) = Done b'
    /\ runMode b' = CALFINISH.
Proof.
  destruct (calibrating_lasts_M_cycles 2
              [swing 1001000; swing 2001000; swing 3001000; swing 4001000]
              (setTgtSmoothing 2 calib_start)) as (b' & Hb' & _ & Heq).
  - lia.
  - reflexivity.
  - reflexivity.
  - reflexivity.
  - reflexivity.
  - cbn. lia.
  - reflexivity.
  - cbn [steady]. unfold seen.
    repeat split; try (vm_compute; discriminate); try (vm_compute; reflexivity);
      exists 4; vm_compute; reflexivity.
  - cbn. lia.
  - exists b'. split; [exact Hb' |]. apply Heq. reflexivity.
Defined.

(** ** Running *)

(** One call in RUNNING mode. *)
Lemma beat_running_step (p : Passage) (b : Bendulum) (r : Z * Bendulum) :
  runMode b = RUNNING ->
  beat p b = Done r ->
  fst r = (if lastTime b =? 0 then 0 else uspb b)
  /\ snd r = (if lastTime b =? 0
              then set_lastTime (to_ulong (micros p)) b
              else set_lastTime (to_ulong (micros p))
                     (set_timeBeforeLast (lastTime b) (set_tick (negb (tick b)) b))).
Proof.
  intros Hm H. beat_inv H; try congruence; rewrite ?El; auto.
Qed.

(** X5.  In RUNNING mode nothing is measured.  A call of [beat] returns the
    beat duration as it stands (0 if no prior timestamp is recorded), and
    over every run of calls the mode, the beat duration, both averages, both
    last periods, the peak scale and both counters stay as they were: only
    the tick flag and the two timestamps move. *)
Theorem running_is_frozen (ps : list Passage) (b b' : Bendulum) :
  runMode b = RUNNING ->
  beats ps b = Done b' ->
  runMode b' = RUNNING
  /\ uspb b' = uspb b
  /\ tickAvg b' = tickAvg b
  /\ tockAvg b' = tockAvg b
  /\ tickPeriod b' = tickPeriod b
  /\ tockPeriod b' = tockPeriod b
  /\ peakScale b' = peakScale b
  /\ cycleCounter b' = cycleCounter b
  /\ curSmoothing b' = curSmoothing b
  /\ (forall p r, beat p b = Done r ->
      fst r = if lastTime b =? 0 then 0 else uspb b).
Proof.
  intros Hm H.
  assert (Hrun : runMode b' = RUNNING
                 /\ uspb b' = uspb b /\ tickAvg b' = tickAvg b
                 /\ tockAvg b' = tockAvg b /\ tickPeriod b' = tickPeriod b
                 /\ tockPeriod b' = tockPeriod b /\ peakScale b' = peakScale b
                 /\ cycleCounter b' = cycleCounter b
                 /\ curSmoothing b' = curSmoothing b).
  { revert b Hm H. induction ps as [| p ps IH]; intros b Hm H; cbn [beats] in H.
    - injection H as <-. repeat split; auto.
    - bind_inv H. destruct (beat_running_step _ _ _ Hm Ha) as [_ Hs].
      assert (Hm1 : runMode (snd a) = RUNNING)
        by (rewrite Hs; destruct (lastTime b =? 0); exact Hm).
      destruct (IH _ Hm1 H) as (A1 & A2 & A3 & A4 & A5 & A6 & A7 & A8 & A9).
      rewrite A2, A3, A4, A5, A6, A7, A8, A9, Hs.
      destruct (lastTime b =? 0); repeat split; auto. }
  destruct Hrun as (A1 & A2 & A3 & A4 & A5 & A6 & A7 & A8 & A9).
  repeat (split; [assumption |]).
  intros p r Hr. exact (proj1 (beat_running_step _ _ _ Hm Hr)).
Qed.

(** The sketch's object run with known parameters: RUNNING mode and a beat
    duration of one second, set by hand. *)
Lemma running_is_frozen_witness :
  beats [swing 1000; swing 1001000; swing 2001000]
    (setBeatDuration 1000000 (setRunMode RUNNING sketch))
  = Done (set_lastTime 2001000
            (set_timeBeforeLast 1001000
               (setBeatDuration 1000000 (setRunMode RUNNING sketch))))
  /\ uspb (set_lastTime 2001000
             (set_timeBeforeLast 1001000
                (setBeatDuration 1000000 (setRunMode RUNNING sketch))))
     = uspb (setBeatDuration 1000000 (setRunMode RUNNING sketch)).
Proof.
  assert (H : beats [swing 1000; swing 1001000; swing 2001000]
                (setBeatDuration 1000000 (setRunMode RUNNING sketch))
              = Done (set_lastTime 2001000
                        (set_timeBeforeLast 1001000
                           (setBeatDuration 1000000 (setRunMode RUNNING sketch)))))
    by (vm_compute; reflexivity).
  split; [exact H |].
  assert (Hm : runMode (setBeatDuration 1000000 (setRunMode RUNNING sketch)) = RUNNING)
    by reflexivity.
  destruct (running_is_frozen _ _ _ Hm H) as (_ & A & _). exact A.
Defined.

(** X6.  [cycle] in RUNNING mode, a prior timestamp being recorded and the
    first of the two passages coming at a clock time other than 0: the
    value returned is twice the beat duration (as a [long]), the tick flag
    is back where it was, and the two timestamps are those of the two
    passages. *)
Theorem cycle_running (p q : Passage) (b : Bendulum) (pc qc : Z) :
  runMode b = RUNNING ->
  lastTime b <> 0 ->
  to_ulong (micros p) <> 0 ->
  watch (peakScale b) (coil p) = Done pc ->
  watch (peakScale b) (coil q) = Done qc ->
  cycle p q b
  = Done (to_long (uspb b + uspb b),
          set_lastTime (to_ulong (micros q))
            (set_timeBeforeLast (to_ulong (micros p)) b)).
Proof.
  intros Hm Hl Hp Hwp Hwq. unfold cycle.
  assert (H1 : beat p b
               = Done (uspb b,
                       set_lastTime (to_ulong (micros p))
                         (set_timeBeforeLast (lastTime b)
                            (set_tick (negb (tick b)) b)))).
  { enter_beat Hwp Hl. rewrite Hm. reflexivity. }
  rewrite H1. cbn [bind snd fst].
  unfold beat. fields. rewrite Hwq. cbn [bind].
  rewrite (proj2 (Z.eqb_neq _ _) Hp). rewrite Hm. cbn [bind]. fields.
  rewrite negb_involutive. destruct b; reflexivity.
Qed.

Lemma cycle_running_witness :
  cycle (swing 1001000) (swing 2001000)
    (set_lastTime 1000 (setBeatDuration 1000000 (setRunMode RUNNING sketch)))
  = Done (to_long (1000000 + 1000000),
          set_lastTime (to_ulong (micros (swing 2001000)))
            (set_timeBeforeLast (to_ulong (micros (swing 1001000)))
               (set_lastTime 1000
                  (setBeatDuration 1000000 (setRunMode RUNNING sketch))))).
Proof.
  apply (cycle_running (swing 1001000) (swing 2001000)
           (set_lastTime 1000 (setBeatDuration 1000000 (setRunMode RUNNING sketch)))
           4 4).
  - reflexivity.
  - cbn. lia.
  - vm_compute. discriminate.
  - reflexivity.
  - reflexivity.
Defined.

(** ** Setting the mode and the bias *)

(** X7.  [setRunMode] composes as a plain assignment of the mode would:
    setting the same mode twice is setting it once, and of two calls the
    later one decides the mode.  Right after a call [getCycleCounter] reads
    1 in the three counting modes, -1 in RUNNING mode, and in CALFINISH
    mode the cycle counter as it was left. *)
Theorem setRunMode_twice (m n : RunMode) (b : Bendulum) :
  setRunMode m (setRunMode m b) = setRunMode m b
  /\ runMode (setRunMode n (setRunMode m b)) = n
  /\ getCycleCounter (setRunMode m b)
     = match m with
       | SETTLING | SCALING | CALIBRATING => 1
       | CALFINISH => cycleCounter b
       | RUNNING => -1
       end.
Proof.
  split; [destruct m; reflexivity |].
  split; [destruct n; reflexivity | destruct m; reflexivity].
Qed.

Lemma to_int_add_sub (x f : Z) : in_int x -> to_int (to_int (x + f) + - f) = x.
Proof.
  unfold in_int, to_int, wrap_signed. intros Hx.
  change (2 ^ (16 - 1)) with 32768. change (2 ^ 16) with 65536.
  replace ((x + f + 32768) mod 65536 - 32768 + - f + 32768)
    with ((x + f + 32768) mod 65536 - f) by ring.
  rewrite Zminus_mod_idemp_l.
  replace (x + f + 32768 - f) with (x + 32768) by ring.
  rewrite Z.mod_small by lia. lia.
Qed.

(** X9.  [incrBias] returns the new bias, which is the sum when that fits
    an [int]; and whether or not the sum wrapped around, incrementing by
    [factor] and then by [-factor] gives back the object as it was. *)
Theorem incrBias_round_trip (factor : Z) (b : Bendulum) :
  in_int (bias b) ->
  fst (incrBias factor b) = bias (snd (incrBias factor b))
  /\ (in_int (bias b + factor) -> fst (incrBias factor b) = bias b + factor)
  /\ snd (incrBias (- factor) (snd (incrBias factor b))) = b
  /\ fst (incrBias (- factor) (snd (incrBias factor b))) = bias b.
Proof.
  intros Hb. unfold incrBias. fields.
  split; [reflexivity |]. split; [intros H; apply to_int_id; exact H |].
  rewrite (to_int_add_sub _ _ Hb).
  split; [destruct b; reflexivity | reflexivity].
Qed.

Lemma incrBias_round_trip_witness :
  in_int (bias (setBias 32000 sketch))
  /\ fst (incrBias 1000 (setBias 32000 sketch)) = -32536
  /\ snd (incrBias (- 1000) (snd (incrBias 1000 (setBias 32000 sketch))))
     = setBias 32000 sketch.
Proof.
  assert (H : in_int (bias (setBias 32000 sketch))) by (cbn; unfold in_int; lia).
  split; [exact H |]. split; [vm_compute; reflexivity |].
  destruct (incrBias_round_trip 1000 (setBias 32000 sketch) H) as (_ & _ & A & _).
  exact A.
Defined.

(** ** More on [incrBeatDuration] *)

(** X10.  Whenever [incrBeatDuration] returns, the value returned is the
    new beat duration and both averages equal it, whatever they were
    before; the mode, the counters, the bias, the peak scale, the targets,
    the tick flag, the last periods and the timestamps are untouched. *)
Theorem incrBeatDuration_frame
  (fuel : nat) (incr : Z) (b : Bendulum) (r : Z * Bendulum) :
  incrBeatDuration fuel incr b = Done r ->
  uspb (snd r) = fst r
  /\ tickAvg (snd r) = fst r
  /\ tockAvg (snd r) = fst r
  /\ snd r = set_tickAvg (fst r) (set_tockAvg (fst r) (set_uspb (fst r) b)).
Proof.
  unfold incrBeatDuration. intros H. bind_inv H. bind_inv H.
  injection H as <-. fields. repeat split; reflexivity.
Qed.

Lemma incrBeatDuration_frame_witness :
  incrBeatDuration 0 100 one_second
  = Done (1000116, set_tickAvg 1000116 (set_tockAvg 1000116 (set_uspb 1000116 one_second)))
  /\ tickAvg (set_tickAvg 1000116 (set_tockAvg 1000116 (set_uspb 1000116 one_second)))
     = 1000116.
Proof.
  assert (H : incrBeatDuration 0 100 one_second
              = Done (1000116,
                      set_tickAvg 1000116
                        (set_tockAvg 1000116 (set_uspb 1000116 one_second))))
    by (vm_compute; reflexivity).
  split; [exact H |].
  destruct (incrBeatDuration_frame _ _ _ _ H) as (_ & A & _). exact A.
Defined.

Lemma incrBeatDuration_single_step_witness :
  corr_fits 100 (uspb one_second)
  /\ exists b',
       incrBeatDuration 0 100 one_second
       = Done (corrected_spec (uspb one_second) 100, b')
       /\ uspb b' = corrected_spec (uspb one_second) 100.
Proof.
  apply (incrBeatDuration_single_step 0 100 one_second).
  - cbn. lia.
  - vm_compute. split; discriminate.
Defined.

(** X12.  With a beat duration above 2,000,000,000 the step
    [2000000000 / uspb] is 0, and the loop of [incrBeatDuration] subtracts
    it from a positive adjustment for ever: the call does not return,
    however many iterations it is given. *)
Theorem incrBeatDuration_never_returns (incr : Z) (b : Bendulum) :
  2000000000 < uspb b <= 2147483647 ->
  0 < incr <= 2147483647 ->
  forall fuel, incrBeatDuration fuel incr b = Pending.
Proof.
  intros Hu Hi fuel. unfold incrBeatDuration, div_long.
  rewrite (proj2 (Z.eqb_neq _ _)) by lia. cbn [bind].
  assert (Hq : 2000000000 ÷ uspb b = 0) by (apply Z.quot_small; lia).
  rewrite Hq. change (to_long 0) with 0.
  assert (Hloop : forall f u, incr_loop f 0 incr u = Pending).
  { induction f as [| f IH]; intros u; cbn [incr_loop];
      rewrite (proj2 (Z.gtb_lt incr 0)) by lia; [reflexivity |].
    rewrite Z.sub_0_r, to_long_id by (unfold in_long; lia). apply IH. }
  rewrite Hloop. reflexivity.
Qed.

Lemma incrBeatDuration_never_returns_witness :
  incrBeatDuration 1000 1 (setBeatDuration 2100000000 sketch) = Pending.
Proof.
  apply (incrBeatDuration_never_returns 1 (setBeatDuration 2100000000 sketch)).
  - cbn. lia.
  - lia.
Defined.

(** ** The sensor loop *)

(** With readings that are not negative the first loop ends on a 0. *)
Lemma wait_zero_nonneg (rs rs' : list Z) (z : Z) :
  Forall (fun r => 0 <= r) rs ->
  wait_zero rs = Done (z, rs') ->
  z = 0 /\ Forall (fun r => 0 <= r) rs'.
Proof.
  induction rs as [| r rs IH]; cbn; intros Hrs H; [discriminate |].
  inversion Hrs as [| ? ? Hr Hrs']; subst.
  destruct (r >? 0) eqn:E.
  - apply IH; assumption.
  - injection H as <- <-. rewrite Z.gtb_ltb in E. apply Z.ltb_ge in E.
    split; [lia | exact Hrs'].
Qed.

(** X13.  A peak scale of 0 makes [beat] divide by zero.  With coil
    readings that are not negative the call never returns a value; it ends
    in the division by zero as soon as the coil has read 0 and one more
    reading is taken. *)
Theorem beat_peakScale_zero (p : Passage) (b : Bendulum) :
  peakScale b = 0 ->
  Forall (fun r => 0 <= r) (coil p) ->
  (forall r, beat p b <> Done r)
  /\ (forall z r rs, wait_zero (coil p) = Done (z, r :: rs) -> beat p b = DivByZero).
Proof.
  intros Hs Hrs.
  assert (Hdiv : forall z r rs,
             wait_zero (coil p) = Done (z, r :: rs) -> watch 0 (coil p) = DivByZero).
  { intros z r rs Hz. destruct (wait_zero_nonneg _ _ _ Hrs Hz) as [-> _].
    unfold watch. rewrite Hz. reflexivity. }
  split.
  - intros r H. unfold beat in H. bind_inv H. rewrite Hs in Ha.
    unfold watch in Ha. bind_inv Ha. destruct a0 as [z rs].
    destruct (wait_zero_nonneg _ _ _ Hrs Ha0) as [-> _].
    cbn [fst snd] in Ha. destruct rs as [| r0 rs]; cbn in Ha; discriminate.
  - intros z r rs Hz. unfold beat. rewrite Hs, (Hdiv _ _ _ Hz). reflexivity.
Qed.

Lemma beat_peakScale_zero_witness :
  beat (swing 1000) (setPeakScale 0 sketch) = DivByZero.
Proof.
  destruct (beat_peakScale_zero (swing 1000) (setPeakScale 0 sketch)) as [_ H].
  - reflexivity.
  - repeat constructor; lia.
  - apply (H 0 5 [20; 40; 30]). reflexivity.
Defined.

(** With readings between 0 and [top] and a positive scale the sensed peak
    is between 0 and [top / scale]. *)
Lemma watch_bounds (scale top : Z) (rs : list Z) (pastCoil : Z) :
  1 <= scale -> 0 <= top <= 32767 ->
  Forall (fun r => 0 <= r <= top) rs ->
  watch scale rs = Done pastCoil ->
  0 <= pastCoil <= top ÷ scale.
Proof.
  intros Hs Ht Hrs Hw. unfold watch in Hw. bind_inv Hw.
  destruct a as [z rs']. cbn [fst snd] in Hw.
  assert (Hnn : Forall (fun r => 0 <= r) rs)
    by (eapply Forall_impl; [| exact Hrs]; cbn; intros; lia).
  destruct (wait_zero_nonneg _ _ _ Hnn Ha) as [-> _].
  destruct (wait_zero_Done _ _ _ Ha) as [_ Hincl].
  assert (Hq : 0 <= top ÷ scale) by (apply Z.quot_pos; lia).
  destruct (wait_peak_origin _ _ _ _ _ Hw) as [-> | [-> | (r & Hr & _ & ->)]];
    try lia.
  rewrite Forall_forall in Hrs. specialize (Hrs r (Hincl r Hr)).
  destruct (quot_toward_zero r scale Hs) as [Hp _]. specialize (Hp ltac:(lia)).
  rewrite to_int_id by (unfold in_int; lia).
  split; [lia |]. apply Z.quot_le_mono; lia.
Qed.

(** X14.  The ratchet of SCALING mode stops.  With coil readings between 0
    and [top], a peak scale above [top / 2] is never incremented; so over
    every run of [beat] calls that begins in SCALING mode with
    [1 <= peakScale <= limit], where [top < 2 * limit], the peak scale stays
    between its first value and [limit] (512 for the ten-bit converter). *)
Theorem peakScale_bounded (top limit : Z) (ps : list Passage) (b b' : Bendulum) :
  0 <= top <= 32767 ->
  top < 2 * limit ->
  Forall (fun p => Forall (fun r => 0 <= r <= top) (coil p)) ps ->
  runMode b = SCALING ->
  1 <= peakScale b <= limit ->
  beats ps b = Done b' ->
  peakScale b <= peakScale b' <= limit.
Proof.
  intros Ht Hl Hps Hm Hb H.
  assert (Hgen : forall b0,
             1 <= mode_code (runMode b0) -> 1 <= peakScale b0 <= limit ->
             beats ps b0 = Done b' -> peakScale b0 <= peakScale b' <= limit).
  { clear b Hm Hb H. induction ps as [| p ps IH]; intros b Hm Hb H; cbn [beats] in H.
    - injection H as <-. lia.
    - bind_inv H. inversion Hps as [| ? ? Hp Hps']; subst.
      assert (Hint : Forall in_int (coil p))
        by (eapply Forall_impl; [| exact Hp]; unfold in_int; cbn; intros; lia).
      destruct (beat_peakScale p b a Hint Ha) as [Hc Hone].
      assert (Hstep : peakScale b <= peakScale (snd a) <= limit).
      { destruct (runMode b) eqn:Em; cbn [mode_code] in Hm; try lia;
          try (rewrite Hone; lia).
        destruct Hone as (pc & Hw & E). rewrite E.
        destruct (negb (lastTime b =? 0) && (pc >? maxPeak)) eqn:Ei; [| lia].
        apply andb_prop in Ei. destruct Ei as [_ Ei].
        apply Z.gtb_lt in Ei. unfold maxPeak in Ei.
        assert (Hs1 : 1 <= peakScale b) by lia.
        pose proof (watch_bounds (peakScale b) top (coil p) pc Hs1 Ht Hp Hw) as Hpc.
        assert (Hlt : top ÷ peakScale b < 2 \/ peakScale b < limit).
        { destruct (Z_lt_le_dec (peakScale b) limit) as [L | G]; [right; exact L |].
          left. apply Z.quot_lt_upper_bound; lia. }
        lia. }
      assert (Hm1 : 1 <= mode_code (runMode (snd a))) by lia.
      assert (Hb1 : 1 <= peakScale (snd a) <= limit) by lia.
      specialize (IH Hps' (snd a) Hm1 Hb1 H). lia. }
  apply Hgen; [rewrite Hm; cbn; lia | exact Hb | exact H].
Qed.

Lemma peakScale_bounded_witness :
  beats [strong_swing 1001000; strong_swing 2001000] scaling_start
  = Done scaling_after_2
  /\ peakScale scaling_start <= peakScale scaling_after_2 <= 512.
Proof.
  assert (H : beats [strong_swing 1001000; strong_swing 2001000] scaling_start
              = Done scaling_after_2) by (vm_compute; reflexivity).
  split; [exact H |].
  apply (peakScale_bounded 1023 512
           [strong_swing 1001000; strong_swing 2001000] scaling_start scaling_after_2).
  - lia.
  - lia.
  - repeat constructor; lia.
  - reflexivity.
  - cbn. lia.
  - exact H.
Defined.

(** ** Timestamps *)

(** Every call that returns leaves the passage's clock time in [lastTime]. *)
Lemma beat_records_time (p : Passage) (b : Bendulum) (r : Z * Bendulum) :
  beat p b = Done r -> lastTime (snd r) = to_ulong (micros p).
Proof.
  intros H. beat_inv H; fields; reflexivity.
Qed.

Lemma clock_corr_no_bias (x : Z) : in_long x -> clock_corr 0 x = x.
Proof.
  intros Hx. unfold clock_corr. rewrite Z.mul_0_l.
  change (to_long (to_long 0 + 432000) ÷ 864000) with 0.
  rewrite Z.add_0_r. apply to_long_id. exact Hx.
Qed.

(** X15.  The interval between two passages is measured modulo the 32-bit
    clock: a passage [d] microseconds after the last one reads as [d] for
    [d] up to 2,147,483,647, also when [micros()] has wrapped around in
    between, and as [d - 4,294,967,296], a negative number, beyond that.
    So with no bias a measured beat in SETTLING or SCALING mode that comes
    [d <= 5,000,000] microseconds after the last one returns [d]. *)
Theorem elapsed_across_wraparound (last d : Z) :
  (0 <= d <= 2147483647 -> elapsed (to_ulong (last + d)) last = d)
  /\ (2147483648 <= d <= 4294967295 ->
      elapsed (to_ulong (last + d)) last = d - 4294967296)
  /\ (forall p b pastCoil,
        runMode b = SETTLING \/ runMode b = SCALING ->
        lastTime b = last -> last <> 0 -> bias b = 0 ->
        micros p = last + d -> 0 <= d <= 5000000 ->
        watch (peakScale b) (coil p) = Done pastCoil ->
        exists b', beat p b = Done (d, b') /\ uspb b' = d).
Proof.
  assert (Hmod : to_ulong (to_ulong (last + d) - last) = d mod 4294967296).
  { unfold to_ulong. change (2 ^ 32) with 4294967296.
    rewrite Zminus_mod_idemp_l. f_equal. ring. }
  assert (Hsmall : 0 <= d <= 2147483647 -> elapsed (to_ulong (last + d)) last = d).
  { intros Hd. unfold elapsed. rewrite Hmod, Z.mod_small by lia.
    apply to_long_id. unfold in_long. lia. }
  split; [exact Hsmall |]. split.
  - intros Hd. unfold elapsed. rewrite Hmod, Z.mod_small by lia.
    unfold to_long, wrap_signed.
    change (2 ^ (32 - 1)) with 2147483648. change (2 ^ 32) with 4294967296.
    replace (d + 2147483648) with (d - 2147483648 + 1 * 4294967296) by ring.
    rewrite Z.mod_add by lia. rewrite Z.mod_small by lia. lia.
  - intros p b pc Hm Hl Hnz Hb Hp Hd Hw.
    destruct (beat_measures p b pc Hm) as (s' & Hs' & Hu & _);
      [rewrite Hl; exact Hnz | exact Hw |].
    rewrite Hp, Hl, Hb, (Hsmall ltac:(lia)) in Hu.
    rewrite clock_corr_no_bias in Hu by (unfold in_long; lia).
    assert (Hg : (d >? 5000000) = false)
      by (rewrite Z.gtb_ltb; apply Z.ltb_ge; lia).
    rewrite Hg in Hu.
    exists s'. rewrite <- Hu. split; [exact Hs' | reflexivity].
Qed.

(** X16.  A passage seen at a clock time of exactly 0 (modulo the 32-bit
    clock) leaves [lastTime] at 0, which the next call reads as "no prior
    timestamp": that call returns 0 and only records its own clock time,
    whatever the mode. *)
Theorem zero_timestamp_hides_next_beat
  (p q : Passage) (b : Bendulum) (r : Z * Bendulum) (pastCoil : Z) :
  to_ulong (micros p) = 0 ->
  beat p b = Done r ->
  watch (peakScale (snd r)) (coil q) = Done pastCoil ->
  beat q (snd r) = Done (0, set_lastTime (to_ulong (micros q)) (snd r)).
Proof.
  intros Hp H Hw. pose proof (beat_records_time _ _ _ H) as Hl.
  rewrite Hp in Hl. unfold beat. rewrite Hw. cbn [bind]. rewrite Hl. reflexivity.
Qed.

Lemma zero_timestamp_hides_next_beat_witness :
  exists r,
    beat (swing 4294967296) (set_lastTime 4294000000 settled_1s) = Done r
    /\ fst r = 967296
    /\ beat (swing 1000000) (snd r)
       = Done (0, set_lastTime (to_ulong (micros (swing 1000000))) (snd r)).
Proof.
  eexists. split; [vm_compute; reflexivity |]. split; [reflexivity |].
  apply (zero_timestamp_hides_next_beat (swing 4294967296) (swing 1000000)
           (set_lastTime 4294000000 settled_1s) _ 4).
  - reflexivity.
  - vm_compute. reflexivity.
  - reflexivity.
Defined.

(** ** Bounds on what is measured *)

(** X17.  A measured beat in SETTLING or SCALING mode returns the beat
    duration it has stored, and that is never above 5,000,000.  It is not
    negative either when the raw interval is between 0 and 2,000,000,000,
    the bias is an [int] and the products of the correction fit a [long];
    without those conditions it can be negative. *)
Theorem measured_duration_bounds (p : Passage) (b : Bendulum) (r : Z * Bendulum) :
  runMode b = SETTLING \/ runMode b = SCALING ->
  lastTime b <> 0 ->
  beat p b = Done r ->
  fst r = uspb (snd r)
  /\ uspb (snd r) <= 5000000
  /\ (in_int (bias b) ->
      0 <= elapsed (to_ulong (micros p)) (lastTime b) <= 2000000000 ->
      corr_fits (bias b) (elapsed (to_ulong (micros p)) (lastTime b)) ->
      0 <= uspb (snd r)).
Proof.
  intros Hm Hl H.
  assert (Hw : exists pc, watch (peakScale b) (coil p) = Done pc).
  { unfold beat in H. apply bind_Done in H. destruct H as (pc & Hw & _). eauto. }
  destruct Hw as [pc Hw].
  destruct (beat_measures p b pc Hm Hl Hw) as (s' & Hs' & Hu & _).
  rewrite Hs' in H. injection H as <-. cbn [fst snd].
  split; [reflexivity |].
  set (e := elapsed (to_ulong (micros p)) (lastTime b)) in *.
  destruct (clock_corr (bias b) e >? 5000000) eqn:Eg.
  - rewrite Hu. split; [lia |]. intros _ _ _. lia.
  - rewrite Z.gtb_ltb in Eg. apply Z.ltb_ge in Eg.
    rewrite Hu. split; [exact Eg |].
    intros Hb He Hf. unfold in_int in Hb.
    pose proof (quot_864000_abs (bias b * e + 432000)) as Hq.
    assert (Hnn : 0 <= e * (864000 + bias b)) by (apply Z.mul_nonneg_nonneg; lia).
    rewrite clock_corr_exact; [| unfold in_long; lia | exact Hf |].
    + unfold corrected_spec. lia.
    + destruct Hf as [F1 F2]. unfold corrected_spec, in_long in *. lia.
Qed.

Lemma measured_duration_bounds_witness :
  exists r,
    beat (swing 7001000) settled_1s = Done r
    /\ fst r = uspb (snd r)
    /\ uspb (snd r) <= 5000000.
Proof.
  eexists. split; [vm_compute; reflexivity |].
  assert (Hm : runMode settled_1s = SETTLING \/ runMode settled_1s = SCALING)
    by (left; reflexivity).
  assert (Hl : lastTime settled_1s <> 0) by (cbn; lia).
  destruct (measured_duration_bounds (swing 7001000) settled_1s _ Hm Hl
              ltac:(vm_compute; reflexivity)) as (A & B & _).
  split; [exact A | exact B].
Defined.

(** ** The running averages *)

(** The new average lies between the old one and the sample. *)
Lemma smooth_between (avg sample n : Z) :
  0 <= avg <= 2147483647 -> 0 <= sample <= 2147483647 -> 1 <= n ->
  Z.min avg sample <= smooth avg sample n <= Z.max avg sample.
Proof.
  intros Ha Hs Hn.
  rewrite smooth_exact by (unfold in_long; lia).
  destruct (quot_toward_zero (sample - avg) n Hn) as [Hp Hm].
  destruct (Z_le_gt_dec 0 (sample - avg)) as [L | G];
    [specialize (Hp L) | specialize (Hm ltac:(lia))]; lia.
Qed.

(** X18.  A measured beat in CALIBRATING mode with a positive smoothing
    counter moves one average and leaves the other: on a tick (the flag
    set, or [tickAvg] still 0) the new [tickAvg] lies between the old one
    and the corrected interval just measured, and [tockAvg] is as it was;
    on a tock it is the other way round.  Averages and interval are taken
    not negative.  With the counter at 1 the new average is the interval
    itself. *)
Theorem running_average_between (p : Passage) (b : Bendulum) :
  runMode b = CALIBRATING ->
  lastTime b <> 0 ->
  1 <= curSmoothing b ->
  seen (peakScale b) p ->
  0 <= tickAvg b <= 2147483647 ->
  0 <= tockAvg b <= 2147483647 ->
  0 <= clock_corr (bias b) (elapsed (to_ulong (micros p)) (lastTime b)) ->
  exists r,
    beat p b = Done r
    /\ (tick b = true \/ tickAvg b = 0 ->
        Z.min (tickAvg b)
          (clock_corr (bias b) (elapsed (to_ulong (micros p)) (lastTime b)))
        <= tickAvg (snd r)
        <= Z.max (tickAvg b)
             (clock_corr (bias b) (elapsed (to_ulong (micros p)) (lastTime b)))
        /\ tockAvg (snd r) = tockAvg b
        /\ (curSmoothing b = 1 ->
            tickAvg (snd r)
            = clock_corr (bias b) (elapsed (to_ulong (micros p)) (lastTime b))))
    /\ (tick b = false /\ tickAvg b <> 0 ->
        Z.min (tockAvg b)
          (clock_corr (bias b) (elapsed (to_ulong (micros p)) (lastTime b)))
        <= tockAvg (snd r)
        <= Z.max (tockAvg b)
             (clock_corr (bias b) (elapsed (to_ulong (micros p)) (lastTime b)))
        /\ tickAvg (snd r) = tickAvg b
        /\ (curSmoothing b = 1 ->
            tockAvg (snd r)
            = clock_corr (bias b) (elapsed (to_ulong (micros p)) (lastTime b)))).
Proof.
  intros Hm Hl Hn Hseen Ha Ho Hs0.
  destruct (beat_calibrating_cases p b Hm Hl ltac:(lia) Hseen)
    as (r & Hr & _ & _ & _ & _ & Htk & Htock).
  set (sample := clock_corr (bias b) (elapsed (to_ulong (micros p)) (lastTime b))) in *.
  assert (Hs : 0 <= sample <= 2147483647).
  { split; [exact Hs0 |]. pose proof (to_long_range
      (elapsed (to_ulong (micros p)) (lastTime b)
       + to_long (to_long (bias b * elapsed (to_ulong (micros p)) (lastTime b)) + 432000)
         ÷ 864000)) as R.
    unfold in_long in R. unfold sample, clock_corr. lia. }
  assert (Hone : forall avg, 0 <= avg <= 2147483647 -> smooth avg sample 1 = sample).
  { intros avg Havg. rewrite smooth_exact by (unfold in_long; lia).
    rewrite Z.quot_1_r. lia. }
  exists r. split; [exact Hr |]. split.
  - intros H. destruct (Htk H) as (_ & _ & _ & E & E').
    rewrite E. split; [apply smooth_between; assumption |].
    split; [exact E' |]. intros E1. rewrite E1. apply Hone. exact Ha.
  - intros H. destruct (Htock H) as (E' & _ & _ & _ & E).
    rewrite E. split; [apply smooth_between; assumption |].
    split; [exact E' |]. intros E1. rewrite E1. apply Hone. exact Ho.
Qed.

Lemma running_average_between_witness :
  exists r,
    beat (swing 1001000) calib_start = Done r
    /\ tickAvg (snd r) = 1000000.
Proof.
  destruct (running_average_between (swing 1001000) calib_start)
    as (r & Hr & Htk & _).
  - reflexivity.
  - cbn. lia.
  - cbn. lia.
  - split; [vm_compute; discriminate | exists 4; vm_compute; reflexivity].
  - cbn. lia.
  - cbn. lia.
  - vm_compute. discriminate.
  - exists r. split; [exact Hr |].
    destruct (Htk (or_introl eq_refl)) as (_ & _ & E).
    rewrite (E eq_refl). vm_compute. reflexivity.
Defined.

(** ** When the passage is seen *)

Lemma wait_zero_skips (pre rest : list Z) (z : Z) :
  Forall (fun r => 0 < r) pre -> z <= 0 ->
  wait_zero (pre ++ z :: rest) = Done (z, rest).
Proof.
  intros Hpre Hz. induction Hpre as [| r pre Hr _ IH]; cbn.
  - rewrite Z.gtb_ltb, (proj2 (Z.ltb_ge 0 z)) by lia. reflexivity.
  - rewrite (proj2 (Z.gtb_lt r 0)) by lia. exact IH.
Qed.

Lemma wait_peak_rising (scale : Z) (rs : list Z) :
  scale <> 0 ->
  forall c p : Z,
    p <= c -> rising scale c rs ->
    wait_peak scale rs c p = Pending
    /\ forall r rest,
         to_int (r ÷ scale) < last_scaled scale c rs ->
         wait_peak scale (rs ++ r :: rest) c p = Done (last_scaled scale c rs).
Proof.
  intros Hs. apply Z.eqb_neq in Hs.
  induction rs as [| x rs IH]; intros c p Hpc Hr.
  - cbn. rewrite (proj2 (Z.geb_le c p)) by lia. split; [reflexivity |].
    intros r rest Hfall. unfold div_int. rewrite Hs. cbn [bind].
    destruct rest as [| y rest]; cbn;
      destruct (to_int (r ÷ scale) >=? c) eqn:E; try reflexivity;
      apply Z.geb_le in E; lia.
  - destruct Hr as [Hx Hr]. cbn [wait_peak app rising last_scaled].
    rewrite (proj2 (Z.geb_le c p)) by lia.
    unfold div_int. rewrite Hs. cbn [bind].
    apply IH; assumption.
Qed.

(** X19.  When [beat] sees the passage.  The first loop skips the positive
    readings up to a reading of 0.  The second then follows the readings
    divided by the peak scale for as long as they do not fall: while they
    rise or stay level the call has not returned, and at the first scaled
    reading below the one before it the call goes on, with the scaled
    reading before the fall as the sensed peak. *)
Theorem watch_first_fall (scale : Z) (pre rs rest : list Z) (r : Z) :
  scale <> 0 ->
  Forall (fun x => 0 < x) pre ->
  rising scale 0 rs ->
  to_int (r ÷ scale) < last_scaled scale 0 rs ->
  watch scale (pre ++ 0 :: rs) = Pending
  /\ watch scale (pre ++ 0 :: rs ++ r :: rest) = Done (last_scaled scale 0 rs).
Proof.
  intros Hs Hpre Hr Hfall. unfold watch.
  rewrite !wait_zero_skips by (assumption || lia). cbn [bind fst snd].
  destruct (wait_peak_rising scale rs Hs 0 0 ltac:(lia) Hr) as [Hp Hd].
  split; [exact Hp | apply Hd; exact Hfall].
Qed.

Lemma watch_first_fall_witness :
  watch 10 ([7; 3] ++ 0 :: [5; 20; 40]) = Pending
  /\ watch 10 ([7; 3] ++ 0 :: [5; 20; 40] ++ 30 :: [12]) = Done 4.
Proof.
  apply (watch_first_fall 10 [7; 3] [5; 20; 40] [12] 30).
  - lia.
  - repeat constructor.
  - cbn [rising]. repeat split; vm_compute; discriminate.
  - vm_compute. reflexivity.
Defined.
